(** * lazycommit: the command-line driver [run] and the prompt budget

    A shallow embedding of [cmd/lazycommit/main.go]; a second variant of
    the file has the same [run] and declares [cleanAIMessage] besides.  Go
    strings are byte strings ([string]); everything the program reaches outside its own
    source (the operating system, the git binary, the prompt builder in
    [prompt.go], the chat-completion client, the shell-escaping and path
    libraries) is a field of one environment record [Env], and every call
    [run] makes to it is logged as an [Event], in program order. *)

From Stdlib Require Import String Ascii List Bool Arith ZArith Lia DecimalString.
Import ListNotations.
Open Scope string_scope.

(** ** Go's [strings] package, as far as the program uses it *)

Module strings.

Definition byte (n : nat) : ascii := ascii_of_nat n.

Definition is_byte (n : nat) (c : ascii) : bool := Ascii.eqb c (byte n).

(** [asciiSpace] of [strings.TrimSpace]: tab, newline, vertical tab, form
    feed, carriage return and space. *)
Definition asciiSpace (c : ascii) : bool :=
  is_byte 9 c || is_byte 10 c || is_byte 11 c || is_byte 12 c
  || is_byte 13 c || is_byte 32 c.

(** [unicode.IsSpace] on the two-byte UTF-8 encodings: U+0085 and U+00A0. *)
Definition space2 (a b : ascii) : bool :=
  is_byte 194 a && (is_byte 133 b || is_byte 160 b).

(** [unicode.IsSpace] on the three-byte UTF-8 encodings: U+1680,
    U+2000..U+200A, U+2028, U+2029, U+202F, U+205F and U+3000. *)
Definition space3 (a b c : ascii) : bool :=
  (is_byte 225 a && is_byte 154 b && is_byte 128 c)
  || (is_byte 226 a && is_byte 128 b
      && ((128 <=? nat_of_ascii c)%nat && (nat_of_ascii c <=? 138)%nat
          || is_byte 168 c || is_byte 169 c || is_byte 175 c))
  || (is_byte 226 a && is_byte 129 b && is_byte 159 c)
  || (is_byte 227 a && is_byte 128 b && is_byte 128 c).

(** Drops leading white-space runes.  With [mirror] the bytes of each rune
    are read back to front: the function then serves on a reversed string
    for the trailing side. *)
Fixpoint trimLeading (mirror : bool) (s : string) : string :=
  match s with
  | EmptyString => s
  | String a r1 =>
      if asciiSpace a then trimLeading mirror r1
      else
        match r1 with
        | EmptyString => s
        | String b r2 =>
            if (if mirror then space2 b a else space2 a b)
            then trimLeading mirror r2
            else
              match r2 with
              | EmptyString => s
              | String c r3 =>
                  if (if mirror then space3 c b a else space3 a b c)
                  then trimLeading mirror r3
                  else s
              end
        end
  end.

Definition reverse (s : string) : string :=
  string_of_list_ascii (rev (list_ascii_of_string s)).

(** [strings.TrimSpace]: leading and trailing Unicode white space removed. *)
Definition TrimSpace (s : string) : string :=
  reverse (trimLeading true (reverse (trimLeading false s))).

Definition HasPrefix (s p : string) : bool := String.prefix p s.

Definition HasSuffix (s p : string) : bool :=
  String.prefix (reverse p) (reverse s).

Definition TrimPrefix (s p : string) : string :=
  if HasPrefix s p
  then substring (String.length p) (String.length s - String.length p) s
  else s.

Definition TrimSuffix (s p : string) : string :=
  if HasSuffix s p
  then substring 0 (String.length s - String.length p) s
  else s.

End strings.

(** The line feed, and a text followed by one as [fmt.Println] writes it. *)
Definition LF : string := String (ascii_of_nat 10) EmptyString.

Definition line (s : string) : string := s ++ LF.

(** ** Errors *)

(** Go's [error] values as the program makes or meets them. *)
Inductive error : Type :=
| errors_New (text : string)
    (* errors.New(text) *)
| fmt_Errorf_w (format : string) (arg : string) (err : error)
    (* fmt.Errorf(format, arg, err) with one %q verb and one %w verb *)
| io_EOF
    (* the sentinel io.EOF *)
| foreign (text : string).
    (* an error made outside this program: os, os/exec, the client *)

(** [errors.Unwrap]. *)
Definition Unwrap (e : error) : option error :=
  match e with
  | fmt_Errorf_w _ _ err => Some err
  | _ => None
  end.

Definition is_EOF (e : error) : bool :=
  match e with
  | io_EOF => true
  | _ => false
  end.

(** ** go-openai's message and request types *)

Inductive ChatMessageRole : Type :=
| ChatMessageRoleSystem
| ChatMessageRoleUser
| ChatMessageRoleAssistant.

Record ChatCompletionMessage : Type := {
  Role : ChatMessageRole;
  Content : string
}.

Record ChatCompletionRequest : Type := {
  Model : string;
  Stream : bool;
  Temperature : Z;
  IncludeUsage : bool;   (* StreamOptions.IncludeUsage *)
  Messages : list ChatCompletionMessage
}.

(** One result of [stream.Recv]: an error, or a response whose choices are
    given by their [Delta.Content]. *)
Inductive RecvResult : Type :=
| RecvErr (e : error)
| RecvResp (choices : list string).

(** [*openai.Client], told apart by its key. *)
Record Client : Type := { authToken : string }.

(** ** The program's own types *)

Record runOptions : Type := {
  client : Client;
  openAIBaseURL : string;
  model : string;
  dryRun : bool;
  amend : bool;
  ref : string;
  context : list string
}.

(** [*exec.Cmd], as far as the program reads and sets it. *)
Record Cmd : Type := {
  Path : string;
  Args : list string
}.

(** ** The environment *)

Record Env : Type := {
  (* os.Getwd() *)
  os_Getwd : error + string;
  (* the Path that exec.Command gives a command of this name *)
  exec_Path : string -> string;
  (* cmd.Output() of the command with these Args: its standard output *)
  cmd_Output : list string -> error + string;
  (* cmd.Run() of the command with these Args, standard streams inherited *)
  cmd_Run : list string -> option error;
  (* BuildPrompt(os.Stdout, dir, commitHash, amend, maxTokens) of prompt.go *)
  BuildPrompt : string -> string -> bool -> Z -> error + list ChatCompletionMessage;
  (* client.CreateChatCompletionStream(ctx, request): the results its
     stream will hand to successive Recv calls; past them Recv gives io.EOF *)
  CreateChatCompletionStream :
    Client -> ChatCompletionRequest -> error + list RecvResult;
  (* filepath.Base *)
  filepath_Base : string -> string;
  (* shellescape.Quote *)
  shellescape_Quote : string -> string
}.

(** What [run] does to the world, in order. *)
Inductive Event : Type :=
| EvGetwd
| EvOutput (args : list string)
| EvBuildPrompt (dir commitHash : string) (amend_ : bool) (maxTokens : Z)
| EvCreateChatCompletionStream (c : Client) (req : ChatCompletionRequest)
| EvRecv
| EvStreamClose
| EvStdout (text : string)
| EvRun (args : list string).

(** ** The monad of [run]: a log of events and an error or a value *)

Definition M (A : Type) : Type := (list Event * (error + A))%type.

Definition ret {A : Type} (a : A) : M A := ([], inr a).

Definition fail {A : Type} (e : error) : M A := ([], inl e).

Definition bind {A B : Type} (m : M A) (k : A -> M B) : M B :=
  match m with
  | (t, inl e) => (t, inl e)
  | (t, inr a) => let (t', r) := k a in ((t ++ t')%list, r)
  end.

Definition emit (ev : Event) : M unit := ([ev], inr tt).

(** A call to the environment: logged, then its result. *)
Definition call {A : Type} (ev : Event) (r : error + A) : M A := ([ev], r).

(** [defer]: the event happens when the rest has returned, error or not. *)
Definition defer {A : Type} (ev : Event) (m : M A) : M A :=
  ((fst m ++ [ev])%list, snd m).

(** [fmt.Errorf("...%w", ..., err)] around a failing computation. *)
Definition wrap_err {A : Type} (w : error -> error) (m : M A) : M A :=
  match m with
  | (t, inl e) => (t, inl (w e))
  | _ => m
  end.

Notation "x <- m ;; k" := (bind m (fun x => k))
  (at level 61, m at next level, right associativity).
Notation "m ;;; k" := (bind m (fun _ => k))
  (at level 61, right associativity).

Definition trace {A : Type} (m : M A) : list Event := fst m.

(** The Go return value of [run]: [None] is [nil]. *)
Definition returned (m : M unit) : option error :=
  match snd m with
  | inl e => Some e
  | inr _ => None
  end.

(** ** The program *)

(** [exec.Command(name, arg...)]. *)
Definition exec_Command (env : Env) (name : string) (arg : list string) : Cmd :=
  {| Path := exec_Path env name; Args := name :: arg |}.

(** [cmd.Output()]. *)
Definition Output (env : Env) (cmd : Cmd) : M string :=
  call (EvOutput (Args cmd)) (cmd_Output env (Args cmd)).

(** [cmd.Run()]. *)
Definition Run (env : Env) (cmd : Cmd) : M unit :=
  call (EvRun (Args cmd))
       match cmd_Run env (Args cmd) with
       | Some e => inl e
       | None => inr tt
       end.

Definition getLastCommitHash (env : Env) : M string :=
  let cmd := exec_Command env "git" ["rev-parse"; "HEAD"] in
  output <- Output env cmd ;;
  ret (strings.TrimSpace output).

Definition resolveRef (env : Env) (ref : string) : M string :=
  let cmd := exec_Command env "git" ["rev-parse"; ref] in
  output <- Output env cmd ;;
  ret (strings.TrimSpace output).

Definition formatShellCommand (env : Env) (cmd : Cmd) : string :=
  fold_left
    (fun buf arg => buf ++ " " ++ shellescape_Quote env arg)
    (tl (Args cmd))
    (filepath_Base env (Path cmd)).

(** [cleanAIMessage], from the variant of [main.go] that declares it; [run]
    does not call it in either variant. *)
Definition cleanAIMessage (msg : string) : string :=
  let msg :=
    if strings.HasPrefix msg "```"
    then strings.TrimPrefix (strings.TrimSuffix msg "```") "```"
    else msg in
  strings.TrimSpace msg.

(** The receive loop of [run]: the text gathered in [msg], each piece
    echoed to standard output as it arrives. *)
Fixpoint recvLoop (stream : list RecvResult) (msg : string) : M string :=
  emit EvRecv ;;;
  match stream with
  | [] => ret msg
  | RecvErr err :: rest => if is_EOF err then ret msg else fail err
  | RecvResp [] :: rest => ret msg
  | RecvResp (c :: _) :: rest =>
      emit (EvStdout c) ;;;
      recvLoop rest (msg ++ c)
  end.

Definition context_header : ChatCompletionMessage :=
  {| Role := ChatMessageRoleSystem;
     Content := "The user has provided additional context that MUST be included in the commit message" |}.

Definition user_message (text : string) : ChatCompletionMessage :=
  {| Role := ChatMessageRoleUser; Content := text |}.

(** [run], lines 92 to 103: the messages extended with the caller's
    context. *)
Definition add_context (msgs : list ChatCompletionMessage) (context : list string)
  : list ChatCompletionMessage :=
  if (0 <? List.length context)%nat
  then fold_left (fun msgs c => (msgs ++ [user_message c])%list)
                 context
                 (msgs ++ [context_header])%list
  else msgs.

(** [run], lines 106 to 114: the request. *)
Definition request (opts : runOptions) (msgs : list ChatCompletionMessage)
  : ChatCompletionRequest :=
  {| Model := model opts;
     Stream := true;
     Temperature := 0;
     IncludeUsage := true;
     Messages := msgs |}.

(** [run], lines 141 to 144: the commit command built from the gathered
    text. *)
Definition commit_command (env : Env) (opts : runOptions) (msg : string) : Cmd :=
  let cmd := exec_Command env "git" ["commit"; "-m"; msg] in
  if amend opts
  then {| Path := Path cmd; Args := (Args cmd ++ ["--amend"])%list |}
  else cmd.

(** [run], lines 74 to 85: the commit to describe, empty for the staged
    changes. *)
Definition commit_hash (env : Env) (opts : runOptions) : M string :=
  if amend opts then getLastCommitHash env
  else if negb (ref opts =? "")
       then wrap_err (fmt_Errorf_w "resolve ref %q: %w" (ref opts))
                     (resolveRef env (ref opts))
       else ret "".

(** [run], lines 146 to 155: the gathered text is committed, or under
    [--dry-run] the command is printed. *)
Definition commit (env : Env) (opts : runOptions) (msg : string) : M unit :=
  let cmd := commit_command env opts msg in
  if dryRun opts
  then
    emit (EvStdout (line "Run the following command to commit:")) ;;;
    emit (EvStdout (line (formatShellCommand env cmd))) ;;;
    ret tt
  else Run env cmd.

(** [run], lines 118 to 155: with the stream open (and closed again on
    return), the reply is gathered, echoed, and committed. *)
Definition receive_and_commit (env : Env) (opts : runOptions)
  (stream : list RecvResult) : M unit :=
  defer EvStreamClose
    (msg <- recvLoop stream "" ;;
     emit (EvStdout (line "")) ;;;
     commit env opts msg).

Definition run (env : Env) (opts : runOptions) : M unit :=
  workdir <- call EvGetwd (os_Getwd env) ;;
  if negb (ref opts =? "") && amend opts
  then fail (errors_New "cannot use both [ref] and --amend")
  else
    hash <- commit_hash env opts ;;
    msgs <- call (EvBuildPrompt workdir hash (amend opts) 128000)
                 (BuildPrompt env workdir hash (amend opts) 128000) ;;
    let msgs := add_context msgs (context opts) in
    let req := request opts msgs in
    stream <- call (EvCreateChatCompletionStream (client opts) req)
                   (CreateChatCompletionStream env (client opts) req) ;;
    receive_and_commit env opts stream.

(** The requests [run] handed to the chat-completion transport. *)
Definition sent_requests (t : list Event) : list ChatCompletionRequest :=
  flat_map (fun ev => match ev with
                      | EvCreateChatCompletionStream _ req => [req]
                      | _ => []
                      end) t.

(** Network calls: opening the completion stream and reading from it. *)
Definition is_network_call (ev : Event) : bool :=
  match ev with
  | EvCreateChatCompletionStream _ _ | EvRecv => true
  | _ => false
  end.

(** The events after the stream is open: reads, echoes, the commit, the
    close. *)
Definition after_open (ev : Event) : bool :=
  match ev with
  | EvRecv | EvStdout _ | EvRun _ | EvStreamClose => true
  | _ => false
  end.

Definition is_user (m : ChatCompletionMessage) : bool :=
  match Role m with
  | ChatMessageRoleUser => true
  | _ => false
  end.


Definition is_BuildPrompt (ev : Event) : bool :=
  match ev with
  | EvBuildPrompt _ _ _ _ => true
  | _ => false
  end.

Definition is_rev_parse (ev : Event) : bool :=
  match ev with
  | EvOutput _ => true
  | _ => false
  end.

(** The budgets [BuildPrompt] was called with. *)
Definition budgets (t : list Event) : list Z :=
  flat_map (fun ev => match ev with
                      | EvBuildPrompt _ _ _ maxTokens => [maxTokens]
                      | _ => []
                      end) t.

(** No system-role message after a user-role message. *)
Fixpoint system_first (msgs : list ChatCompletionMessage) : bool :=
  match msgs with
  | [] => true
  | m :: rest =>
      match Role m with
      | ChatMessageRoleUser =>
          forallb (fun m' => match Role m' with
                             | ChatMessageRoleSystem => false
                             | _ => true
                             end) rest
          && system_first rest
      | _ => system_first rest
      end
  end.

(** ** The prompt compiler of the specification

    [BuildPrompt] lives in [prompt.go], which is not among the sources at
    hand; [run] above takes its result from the environment.  What follows
    is the compiler as the specification describes it (sections 3, 4.2 and
    4.3). *)

Module PromptCompiler.

(** Modelled from the spec: the data model of section 3. *)
Inductive TargetKind : Type :=
  target_working_tree | target_commit | target_amend.

Inductive ChangeKind : Type := added | modified | deleted | renamed.

Record FileChange : Type := {
  path : string;
  kind : ChangeKind;
  diff : string;
  size : nat
}.

Record ChangeSet : Type := {
  target : TargetKind;
  reference : string;
  changes : list FileChange
}.

Definition CompiledPrompt : Type := list ChatCompletionMessage.

Inductive CompileError : Type := BudgetTooSmallError.

(** What to do with a diff body that does not fit (4.3, step 3): (a) a
    placeholder, or (b) a cut at a line boundary. *)
Inductive OverflowPolicy : Type := OmitWithPlaceholder | TruncateAtLine.

(** What the specification leaves to the implementation. *)
Record Settings : Type := {
  estimate : string -> nat;           (* the Token Estimator of 4.2 *)
  system_prompt : string;             (* the fixed system message *)
  describe : FileChange -> string;    (* a file's line of the file list *)
  truncation_marker : string;
  policy : OverflowPolicy
}.

Inductive Warning : Type := ContextDropped (text : string).

Section Compile.

Variable cfg : Settings.

Definition cost (text : string) : Z := Z.of_nat (estimate cfg text).

Definition total_cost (p : CompiledPrompt) : Z :=
  fold_right (fun m acc => cost (Content m) + acc)%Z 0%Z p.

Definition system_message : ChatCompletionMessage :=
  {| Role := ChatMessageRoleSystem; Content := system_prompt cfg |}.

(** Modelled from the spec: the marker of step 2 that stands for the
    files dropped from the list. *)
Definition more_files (n : nat) : string :=
  "…and " ++ NilEmpty.string_of_uint (Nat.to_uint n) ++ " more files".

(** Modelled from the spec: the repository context of step 2, a line for
    each file still listed and the marker when files were dropped. *)
Definition file_list (dropped : nat) (files : list FileChange) : string :=
  String.concat "" (map (describe cfg) files)
  ++ (if (dropped =? 0)%nat then "" else more_files dropped).

Definition fits (text : string) (remaining : Z) : bool :=
  (cost text <=? remaining)%Z.

(** Modelled from the spec: step 2 of 4.3, the file list of the missing
    [BuildPrompt].  The list is taken in full when it fits; otherwise the
    files listed first are dropped one by one, the marker counting them,
    until the text fits.  The specification does not say what happens when
    not even the marker fits: no file list is emitted then. *)
Fixpoint fit_file_list (remaining : Z) (dropped : nat) (files : list FileChange)
  : option string :=
  if fits (file_list dropped files) remaining
  then Some (file_list dropped files)
  else
    match files with
    | [] => None
    | _ :: rest => fit_file_list remaining (S dropped) rest
    end.

(** The complete lines of a text, each with its line feed; a last line
    without one is kept as it is. *)
Fixpoint lines_from (cur : string) (text : string) : list string :=
  match text with
  | EmptyString => if (cur =? "") then [] else [cur]
  | String c rest =>
      if Ascii.eqb c (ascii_of_nat 10)
      then (cur ++ LF) :: lines_from "" rest
      else lines_from (cur ++ String c EmptyString) rest
  end.

Definition lines (text : string) : list string := lines_from "" text.

(** Modelled from the spec: the content of the final user message of
    step 3 with one more text. *)
Definition join (content : option string) (text : string) : string :=
  match content with
  | None => text
  | Some c => c ++ text
  end.

(** Modelled from the spec: the cost of the final user message of step 3
    so far, the estimate of its content. *)
Definition content_cost (content : option string) : Z :=
  match content with
  | None => 0
  | Some text => cost text
  end.

(** Modelled from the spec: policy (b) of step 3, the cut "at a line
    boundary to the remaining budget".  The longest run of leading
    complete lines with which the final user message stays within [limit],
    the budget the messages before it have left; none when not even the
    first line fits.  [kept] holds the candidate lines, last line
    first. *)
Fixpoint fit_lines (limit : Z) (content : option string) (kept : list string)
  : option string :=
  match kept with
  | [] => None
  | _ :: fewer =>
      if fits (join content (String.concat "" (rev kept))) limit
      then Some (String.concat "" (rev kept))
      else fit_lines limit content fewer
  end.

(** Modelled from the spec: the placeholder of policy (a) of step 3. *)
Definition placeholder : string := line "diff omitted — exceeds budget".

(** Modelled from the spec: what a file contributes to the final user
    message in step 3, its diff body whole, or what is kept of it
    (nothing under policy (a)) followed by the placeholder or the
    truncation marker. *)
Inductive Placed : Type :=
| Whole (body : string)
| Marked (kept marker : string).

(** Modelled from the spec: the text that such a contribution adds to
    the message. *)
Definition emitted (p : Placed) : string :=
  match p with
  | Whole body => body
  | Marked kept marker => kept ++ marker
  end.

(** Modelled from the spec: step 3 of 4.3, what one file contributes to
    the final user message of the missing [BuildPrompt].  The diff body is
    taken whole when the message with it added stays within [limit] (the
    cost of a message is the estimate of its content).  When it does not
    fit, the body is (a) replaced by the placeholder or (b) cut after the
    last complete line that fits and followed by the truncation marker;
    the placeholder or marker is emitted whether it fits or not. *)
Definition piece (limit : Z) (content : option string) (f : FileChange)
  : Placed :=
  if fits (join content (diff f)) limit
  then Whole (diff f)
  else
    match policy cfg with
    | OmitWithPlaceholder => Marked "" placeholder
    | TruncateAtLine =>
        Marked match fit_lines limit content (tl (rev (lines (diff f)))) with
               | Some cut => cut
               | None => ""
               end
               (truncation_marker cfg)
    end.

(** Modelled from the spec: one greedy step of step 3, on the content of
    the final user message so far and the placeholders and markers
    emitted so far; a decision is never revisited. *)
Definition place (limit : Z) (st : option string * list string)
  (f : FileChange) : option string * list string :=
  let p := piece limit (fst st) f in
  (Some (join (fst st) (emitted p)),
   match p with
   | Whole _ => snd st
   | Marked _ marker => (snd st ++ [marker])%list
   end).

(** Modelled from the spec: step 2 of [compile], the file list that fits
    what the system message has left. *)
Definition listing (cs : ChangeSet) (budget : Z) : option string :=
  fit_file_list (budget - cost (system_prompt cfg))%Z 0 (changes cs).

(** Modelled from the spec: the budget that the system message of step 1
    and the file list of step 2 leave. *)
Definition left_for_diffs (cs : ChangeSet) (budget : Z) : Z :=
  (budget - cost (system_prompt cfg) - content_cost (listing cs budget))%Z.

(** Modelled from the spec: step 3 of [compile], the files placed one
    after the other in the order of collection. *)
Definition placing (cs : ChangeSet) (budget : Z) : option string * list string :=
  fold_left (place (left_for_diffs cs budget)) (changes cs) (None, []).



(** Modelled from the spec: step 4 of 4.3, the caller's context strings,
    which [run] handles itself in the program.  A string that fits the
    budget left is kept whole; one that does not is dropped whole and a
    warning names it. *)
Fixpoint fit_context (remaining : Z) (context : list string)
  : list string * list Warning :=
  match context with
  | [] => ([], [])
  | c :: rest =>
      if fits c remaining
      then let (kept, warnings) := fit_context (remaining - cost c)%Z rest in
           (c :: kept, warnings)
      else let (kept, warnings) := fit_context remaining rest in
           (kept, ContextDropped c :: warnings)
  end.

(** Modelled from the spec: [compile] of 4.3, steps 1 to 4, standing for
    the missing [BuildPrompt].  The caller's context strings of step 4
    are its third argument; with none it is the [compile(changeSet,
    budget)] of the specification.  It returns the prompt and the
    warnings. *)
Definition compile (cs : ChangeSet) (budget : Z) (context : list string)
  : CompileError + (CompiledPrompt * list Warning) :=
  if (budget <? cost (system_prompt cfg))%Z
  then inl BudgetTooSmallError
  else
    let body := fst (placing cs budget) in
    let left := (left_for_diffs cs budget - content_cost body)%Z in
    let (kept, warnings) := fit_context left context in
    inr ((system_message
          :: match listing cs budget with
             | Some text => [user_message text]
             | None => []
             end
          ++ match body with
             | Some text => [user_message text]
             | None => []
             end
          ++ map user_message kept)%list,
         warnings).

End Compile.

End PromptCompiler.

(** ** What the properties below speak of *)

(** The error of a call into the core (change collection with
    [git rev-parse], prompt compilation with [BuildPrompt]), if it failed
    in this environment. *)
Definition failed_call (env : Env) (ev : Event) : option error :=
  match ev with
  | EvOutput args =>
      match cmd_Output env args with
      | inl e => Some e
      | inr _ => None
      end
  | EvBuildPrompt dir commitHash amend_ maxTokens =>
      match BuildPrompt env dir commitHash amend_ maxTokens with
      | inl e => Some e
      | inr _ => None
      end
  | _ => None
  end.

(** What [BuildPrompt] returned, for a call that succeeded. *)
Definition built (env : Env) (ev : Event) : option (list ChatCompletionMessage) :=
  match ev with
  | EvBuildPrompt dir commitHash amend_ maxTokens =>
      match BuildPrompt env dir commitHash amend_ maxTokens with
      | inl _ => None
      | inr msgs => Some msgs
      end
  | _ => None
  end.

(** The texts written to standard output. *)
Definition printed (t : list Event) : list string :=
  flat_map (fun ev => match ev with
                      | EvStdout text => [text]
                      | _ => []
                      end) t.

(** The argument lists of the commands run with [cmd.Run]. *)
Definition commands_run (t : list Event) : list (list string) :=
  flat_map (fun ev => match ev with
                      | EvRun args => [args]
                      | _ => []
                      end) t.

(** ** Sample environments and invocations *)

Module Sample.

Definition a_client : Client := {| authToken := "sk-sample" |}.

Definition a_prompt : list ChatCompletionMessage :=
  [ {| Role := ChatMessageRoleSystem;
       Content := "Write a commit message for the diff." |};
    user_message "diff --git a/a.txt b/a.txt" ].

(** The text after the last slash. *)
Fixpoint after_slash (cur : string) (p : string) : string :=
  match p with
  | EmptyString => cur
  | String c rest =>
      if Ascii.eqb c "/"%char
      then after_slash "" rest
      else after_slash (cur ++ String c EmptyString) rest
  end.

(** A quoting function after shellescape's: a text of letters, digits
    and [_@%+=:,./-] stands as it is, the empty text and any other text go
    between single quotes, a single quote inside being closed, quoted
    alone between double quotes, and opened again. *)
Definition safe_char (c : ascii) : bool :=
  let n := nat_of_ascii c in
  ((48 <=? n) && (n <=? 57) || (65 <=? n) && (n <=? 90)
   || (97 <=? n) && (n <=? 122))%nat
  || existsb (Ascii.eqb c) (list_ascii_of_string "_@%+=:,./-").

Definition double_quote : string := String (ascii_of_nat 34) EmptyString.

Fixpoint escape_quotes (s : string) : string :=
  match s with
  | EmptyString => EmptyString
  | String c rest =>
      if Ascii.eqb c "'"%char
      then "'" ++ double_quote ++ "'" ++ double_quote ++ "'" ++ escape_quotes rest
      else String c (escape_quotes rest)
  end.

Definition quote (s : string) : string :=
  if (s =? "") then "''"
  else if forallb safe_char (list_ascii_of_string s) then s
       else "'" ++ escape_quotes s ++ "'".

(** An environment given by the four results that vary below. *)
Definition an_env
  (getwd : error + string)
  (rev_parse : error + string)
  (prompt : error + list ChatCompletionMessage)
  (stream : list RecvResult) : Env :=
  {| os_Getwd := getwd;
     exec_Path := fun name => "/usr/bin/" ++ name;
     cmd_Output := fun _ => rev_parse;
     cmd_Run := fun _ => None;
     BuildPrompt := fun _ _ _ _ => prompt;
     CreateChatCompletionStream := fun _ _ => inr stream;
     filepath_Base := after_slash "";
     shellescape_Quote := quote |}.

Definition reply : list RecvResult :=
  [RecvResp ["fix: "]; RecvResp ["typo"]; RecvResp []].

Definition good_env : Env :=
  an_env (inr "/repo") (inr (line "0a1b2c3")) (inr a_prompt) reply.

Definition opts_with (dry amd : bool) (r : string) (ctx : list string) : runOptions :=
  {| client := a_client;
     openAIBaseURL := "https://api.openai.com/v1";
     model := "gpt-4o-2024-08-06";
     dryRun := dry;
     amend := amd;
     ref := r;
     context := ctx |}.

(** No working directory. *)
Definition no_wd_env : Env :=
  an_env (inl (foreign "getwd: no such file or directory"))
         (inr (line "0a1b2c3")) (inr a_prompt) reply.

(** A reference that git cannot resolve. *)
Definition no_ref_env : Env :=
  an_env (inr "/repo") (inl (foreign "exit status 128")) (inr a_prompt) reply.

(** Nothing staged. *)
Definition no_changes_env : Env :=
  an_env (inr "/repo") (inr (line "0a1b2c3"))
         (inl (foreign "no changes detected")) reply.

(** A reply wrapped in a code fence. *)
Definition fence : string := "```".

Definition fenced_reply : list RecvResult :=
  [RecvResp [line fence]; RecvResp [line "fix: typo"]; RecvResp [fence]].

Definition fenced_env : Env :=
  an_env (inr "/repo") (inr (line "0a1b2c3")) (inr a_prompt) fenced_reply.

Definition fenced_text : string := line fence ++ line "fix: typo" ++ fence.

(** Scenario E: three context strings, the third longer than the whole
    budget of 128000 when a token is a byte. *)
Definition long_hint : string :=
  string_of_list_ascii (repeat "x"%char (N.to_nat 128000)).

Definition three_hints : list string :=
  ["closes the login bug"; "keep it short"; long_hint].

Definition byte_count : PromptCompiler.Settings :=
  {| PromptCompiler.estimate := String.length;
     PromptCompiler.system_prompt := "Write a commit message for the diff.";
     PromptCompiler.describe :=
       fun f => line (PromptCompiler.path f);
     PromptCompiler.truncation_marker := line "[diff truncated]";
     PromptCompiler.policy := PromptCompiler.OmitWithPlaceholder |}.


End Sample.

(** ** Further readings of texts and of the log *)

Definition first_byte (s : string) : option ascii :=
  match s with
  | EmptyString => None
  | String a _ => Some a
  end.

Definition last_byte (s : string) : option ascii :=
  first_byte (strings.reverse s).

(** An ASCII white-space byte, as [strings.TrimSpace] counts them. *)
Definition is_blank (b : option ascii) : bool :=
  match b with
  | Some a => strings.asciiSpace a
  | None => false
  end.

(** A byte of a text is plain when it is ASCII and not white space. *)
Definition plain (a : ascii) : bool :=
  (nat_of_ascii a <? 128)%nat && negb (strings.asciiSpace a).

Definition is_plain (b : option ascii) : bool :=
  match b with
  | Some a => plain a
  | None => false
  end.

(** A text of ASCII white space only. *)
Definition blanks (s : string) : bool :=
  forallb strings.asciiSpace (list_ascii_of_string s).

(** The argument lists of the commands whose output was read. *)
Definition rev_parse_calls (t : list Event) : list (list string) :=
  flat_map (fun ev => match ev with
                      | EvOutput args => [args]
                      | _ => []
                      end) t.

Definition is_close (ev : Event) : bool :=
  match ev with
  | EvStreamClose => true
  | _ => false
  end.

(** How often a stream was closed. *)
Definition closes (t : list Event) : nat := List.length (filter is_close t).

(** The streams that were opened: the calls to the transport that did not
    fail. *)
Definition opened (env : Env) (t : list Event) : list (list RecvResult) :=
  flat_map (fun ev => match ev with
                      | EvCreateChatCompletionStream c req =>
                          match CreateChatCompletionStream env c req with
                          | inl _ => []
                          | inr stream => [stream]
                          end
                      | _ => []
                      end) t.

Definition is_Recv (ev : Event) : bool :=
  match ev with
  | EvRecv => true
  | _ => false
  end.

(** How often [stream.Recv] was called. *)
Definition recvs (t : list Event) : nat := List.length (filter is_Recv t).

Definition network_calls (t : list Event) : list Event :=
  filter is_network_call t.

(** A result of [stream.Recv] that ends the receive loop: an error, or a
    response without choices. *)
Definition stops (r : RecvResult) : bool :=
  match r with
  | RecvErr _ | RecvResp [] => true
  | RecvResp (_ :: _) => false
  end.

(** The revision [run] asks git about: [HEAD] under [--amend], else the
    ref. *)
Definition revision (opts : runOptions) : string :=
  if amend opts then "HEAD" else ref opts.

(** Options with one field set. *)
Definition with_dryRun (b : bool) (opts : runOptions) : runOptions :=
  {| client := client opts;
     openAIBaseURL := openAIBaseURL opts;
     model := model opts;
     dryRun := b;
     amend := amend opts;
     ref := ref opts;
     context := context opts |}.

Definition with_openAIBaseURL (url : string) (opts : runOptions) : runOptions :=
  {| client := client opts;
     openAIBaseURL := url;
     model := model opts;
     dryRun := dryRun opts;
     amend := amend opts;
     ref := ref opts;
     context := context opts |}.

Definition with_ref (r : string) (opts : runOptions) : runOptions :=
  {| client := client opts;
     openAIBaseURL := openAIBaseURL opts;
     model := model opts;
     dryRun := dryRun opts;
     amend := amend opts;
     ref := r;
     context := context opts |}.

Definition with_client (c : Client) (opts : runOptions) : runOptions :=
  {| client := c;
     openAIBaseURL := openAIBaseURL opts;
     model := model opts;
     dryRun := dryRun opts;
     amend := amend opts;
     ref := ref opts;
     context := context opts |}.

(** The pieces the receive loop takes from a stream: the content of the
    first choice of each response, up to the first error or response
    without choices. *)
Fixpoint received (stream : list RecvResult) : list string :=
  match stream with
  | RecvResp (c :: _) :: rest => c :: received rest
  | _ => []
  end.


(** ** The root command *)

(** [openai.NewClient(authToken)]. *)
Definition NewClient (token : string) : Client := {| authToken := token |}.

(** How the [RunE] of the root command ends: the process exits after a
    line on standard error, or the function returns what [run] returned. *)
Inductive Outcome : Type :=
| Exit (code : Z) (stderr : string)
| Return (r : M unit).

(** [main], lines 189 to 205: the [RunE] of the root command, given the
    options and the key the flags were parsed into and the positional
    arguments; [os_Getenv] is [os.Getenv]. *)
Definition RunE (env : Env) (os_Getenv : string -> string)
  (opts : runOptions) (openAIKey : string) (args : list string) : Outcome :=
  let opts := match args with
              | arg :: _ => with_ref arg opts
              | [] => opts
              end in
  let go openAIKey :=
    Return (run env (with_client (NewClient openAIKey) opts)) in
  if openAIKey =? ""
  then
    let openAIKey := os_Getenv "OPENAI_API_KEY" in
    if openAIKey =? ""
    then Exit 1 (line "OPENAI_API_KEY is not set")
    else go openAIKey
  else go openAIKey.

(** The key in use: the flag's, and the environment's when the flag is
    empty. *)
Definition key_in_use (os_Getenv : string -> string) (openAIKey : string)
  : string :=
  if openAIKey =? "" then os_Getenv "OPENAI_API_KEY" else openAIKey.

(** ** More sample environments *)

Module Cases.

(** The transport refuses the connection. *)
Definition no_network_env : Env :=
  {| os_Getwd := inr "/repo";
     exec_Path := fun name => "/usr/bin/" ++ name;
     cmd_Output := fun _ => inr (line "0a1b2c3");
     cmd_Run := fun _ => None;
     BuildPrompt := fun _ _ _ _ => inr Sample.a_prompt;
     CreateChatCompletionStream :=
       fun _ _ => inl (foreign "connection refused");
     filepath_Base := Sample.after_slash "";
     shellescape_Quote := Sample.quote |}.

(** The stream breaks after the first piece. *)
Definition broken_reply : list RecvResult :=
  [RecvResp ["fix: "]; RecvErr (foreign "unexpected EOF"); RecvResp ["typo"]].

Definition broken_env : Env :=
  Sample.an_env (inr "/repo") (inr (line "0a1b2c3")) (inr Sample.a_prompt)
                broken_reply.

Definition no_key (name : string) : string := "".

Definition key_in_environment (name : string) : string :=
  if name =? "OPENAI_API_KEY" then "sk-environment" else "".

End Cases.

(** * Properties *)

(** ** The monad and the small steps of [run] *)

Lemma bind_inl {A B : Type} (t : list Event) (e : error) (k : A -> M B) :
  bind (t, inl e) k = (t, inl e).
Proof. reflexivity. Qed.

Lemma bind_inr {A B : Type} (t : list Event) (a : A) (k : A -> M B) :
  bind (t, inr a) k = ((t ++ fst (k a))%list, snd (k a)).
Proof. unfold bind. now destruct (k a). Qed.

Lemma flat_map_nil {A B : Type} (f : A -> list B) (l : list A) :
  (forall a, In a l -> f a = []) -> flat_map f l = [].
Proof.
  induction l as [|a l IH]; intros H; simpl; [reflexivity|].
  rewrite (H a (or_introl eq_refl)), IH; [reflexivity|].
  intros b Hb. apply H. now right.
Qed.

Lemma fold_left_user_messages (context : list string) :
  forall acc,
    fold_left (fun msgs c => (msgs ++ [user_message c])%list) context acc
    = (acc ++ map user_message context)%list.
Proof.
  induction context as [|c rest IH]; intros acc; simpl.
  - now rewrite app_nil_r.
  - rewrite IH, <- app_assoc. reflexivity.
Qed.

(** The loop over the context strings, in closed form. *)
Lemma add_context_eq (msgs : list ChatCompletionMessage) (context : list string) :
  add_context msgs context
  = match context with
    | [] => msgs
    | _ :: _ => (msgs ++ context_header :: map user_message context)%list
    end.
Proof.
  unfold add_context. destruct context as [|c rest]; [reflexivity|].
  cbn [List.length Nat.ltb Nat.leb].
  rewrite fold_left_user_messages, <- app_assoc. reflexivity.
Qed.

Lemma user_contents (context : list string) :
  map Content (filter is_user (map user_message context)) = context.
Proof.
  induction context as [|c rest IH]; simpl; [reflexivity|]. now rewrite IH.
Qed.

(** The receive loop reads and echoes, and does nothing else. *)
Lemma recvLoop_events (stream : list RecvResult) :
  forall msg ev,
    In ev (trace (recvLoop stream msg)) ->
    ev = EvRecv \/ exists c, ev = EvStdout c.
Proof.
  induction stream as [|r rest IH]; intros msg ev; simpl.
  - intros [H|[]]; auto.
  - destruct r as [err|[|c cs]]; simpl.
    + destruct (is_EOF err); simpl; intros [H|[]]; auto.
    + intros [H|[]]; auto.
    + unfold trace in *. destruct (recvLoop rest (msg ++ c)) as [t r] eqn:E.
      simpl. specialize (IH (msg ++ c) ev). rewrite E in IH. simpl in IH.
      intros [H|[H|H]]; eauto.
Qed.

Ltac stream_event H :=
  apply recvLoop_events in H; destruct H as [H|[? H]]; subst.

Lemma commit_hash_cases (env : Env) (opts : runOptions) :
  (commit_hash env opts = ([], inr "") /\ amend opts = false /\ ref opts = "")
  \/ (exists args out,
        commit_hash env opts = ([EvOutput args], inr (strings.TrimSpace out))
        /\ cmd_Output env args = inr out)
  \/ (exists args e e',
        commit_hash env opts = ([EvOutput args], inl e')
        /\ cmd_Output env args = inl e
        /\ (e' = e \/ Unwrap e' = Some e)).
Proof.
  unfold commit_hash, getLastCommitHash, resolveRef, Output, exec_Command, call.
  cbn [Args].
  destruct (amend opts).
  - destruct (cmd_Output env ["git"; "rev-parse"; "HEAD"]) as [e|out] eqn:E.
    + right; right. exists ["git"; "rev-parse"; "HEAD"], e, e. auto.
    + right; left. exists ["git"; "rev-parse"; "HEAD"], out. auto.
  - destruct (ref opts =? "") eqn:R; cbn [negb].
    + left. apply String.eqb_eq in R. auto.
    + destruct (cmd_Output env ["git"; "rev-parse"; ref opts]) as [e|out] eqn:E.
      * right; right.
        exists ["git"; "rev-parse"; ref opts], e,
               (fmt_Errorf_w "resolve ref %q: %w" (ref opts) e). auto.
      * right; left. exists ["git"; "rev-parse"; ref opts], out. auto.
Qed.

Lemma commit_events (env : Env) (opts : runOptions) (msg : string) :
  forall ev, In ev (trace (commit env opts msg)) -> after_open ev = true.
Proof.
  unfold commit, Run, call, emit, ret, bind, trace.
  destruct (dryRun opts); cbn [fst snd app In]; intros ev H;
    repeat (destruct H as [H|H]; [subst ev; reflexivity|]); destruct H.
Qed.

Lemma receive_and_commit_events (env : Env) (opts : runOptions)
  (stream : list RecvResult) :
  forall ev, In ev (trace (receive_and_commit env opts stream)) ->
             after_open ev = true.
Proof.
  intros ev. unfold receive_and_commit, defer, trace. cbn [fst].
  rewrite in_app_iff. intros [H|[H|[]]]; [|subst ev; reflexivity].
  revert H. unfold bind at 1.
  destruct (recvLoop stream "") as [t [e|msg]] eqn:E.
  - cbn [fst]. intros H.
    assert (In ev (trace (recvLoop stream ""))) as H' by (rewrite E; exact H).
    stream_event H'; reflexivity.
  - pose proof (commit_events env opts msg) as Hc.
    unfold bind, emit. cbn [app].
    destruct (commit env opts msg) as [t' r']. cbn [fst trace] in *.
    rewrite in_app_iff. intros [H|[H|H]].
    + assert (In ev (trace (recvLoop stream ""))) as H' by (rewrite E; exact H).
      stream_event H'; reflexivity.
    + subst ev; reflexivity.
    + auto.
Qed.



(** The command line that [--dry-run] prints. *)
Lemma formatShellCommand_commit (env : Env) (opts : runOptions) (msg : string) :
  formatShellCommand env (commit_command env opts msg)
  = (let quoted := shellescape_Quote env in
     let base :=
       ((filepath_Base env (exec_Path env "git") ++ " " ++ quoted "commit")
          ++ " " ++ quoted "-m") ++ " " ++ quoted msg in
     if amend opts then base ++ " " ++ quoted "--amend" else base).
Proof.
  unfold formatShellCommand, commit_command, exec_Command.
  destruct (amend opts); reflexivity.
Qed.

Lemma recvLoop_runs_nothing (stream : list RecvResult) (msg : string) :
  commands_run (trace (recvLoop stream msg)) = [].
Proof.
  apply flat_map_nil. intros ev H. stream_event H; reflexivity.
Qed.

(** Without [--dry-run], the text handed to [git commit -m] is the text
    gathered from the stream, byte for byte. *)
Lemma commit_runs_gathered_text (env : Env) (opts : runOptions)
  (stream : list RecvResult) (msg : string) :
  dryRun opts = false ->
  snd (recvLoop stream "") = inr msg ->
  commands_run (trace (receive_and_commit env opts stream))
  = [("git" :: "commit" :: "-m" :: msg
        :: (if amend opts then ["--amend"] else []))%list].
Proof.
  intros D Hm. unfold receive_and_commit, defer, commit, Run, call, emit, trace.
  rewrite D. pose proof (recvLoop_runs_nothing stream "") as N.
  unfold trace in N. destruct (recvLoop stream "") as [t [e|m]];
    cbn [fst snd] in *; [discriminate|]. injection Hm as ->.
  rewrite !bind_inr. cbn [fst snd app].
  unfold commands_run in *. rewrite !flat_map_app, N.
  unfold commit_command, exec_Command. destruct (amend opts); reflexivity.
Qed.

(** ** The shape of a run *)

(** The shapes a run can take, by the first step that fails. *)
Lemma run_cases (env : Env) (opts : runOptions) :
  (exists e, run env opts = ([EvGetwd], inl e))
  \/ (exists args e e',
        run env opts = ([EvGetwd; EvOutput args], inl e')
        /\ cmd_Output env args = inl e
        /\ (e' = e \/ Unwrap e' = Some e))
  \/ (exists pre dir hash,
        (forall ev, In ev pre -> failed_call env ev = None /\ is_rev_parse ev = true)
        /\ ((exists e,
               BuildPrompt env dir hash (amend opts) 128000 = inl e
               /\ run env opts
                  = (EvGetwd :: pre ++ [EvBuildPrompt dir hash (amend opts) 128000],
                     inl e))
            \/ (exists msgs,
                  BuildPrompt env dir hash (amend opts) 128000 = inr msgs
                  /\ let req := request opts (add_context msgs (context opts)) in
                     let open := EvCreateChatCompletionStream (client opts) req in
                     (exists e,
                        CreateChatCompletionStream env (client opts) req = inl e
                        /\ run env opts
                        = (EvGetwd :: pre
                             ++ [EvBuildPrompt dir hash (amend opts) 128000; open],
                           inl e))
                     \/ (exists stream,
                           CreateChatCompletionStream env (client opts) req = inr stream
                           /\ run env opts
                              = (EvGetwd :: pre
                                   ++ [EvBuildPrompt dir hash (amend opts) 128000; open]
                                   ++ trace (receive_and_commit env opts stream),
                                 snd (receive_and_commit env opts stream)))))).
Proof.
  unfold run, call, fail.
  destruct (os_Getwd env) as [e|workdir]; [left; exists e; reflexivity|].
  rewrite bind_inr. cbn [app].
  destruct (negb (ref opts =? "") && amend opts);
    [left; eexists; reflexivity|].
  right.
  destruct (commit_hash_cases env opts)
    as [[E _]|[(args & out & E & O)|(args & e & e' & E & O & W)]];
    rewrite E.
  3: { left. exists args, e, e'. auto. }
  all: right; rewrite bind_inr.
  - exists [], workdir, "". split; [intros ev []|].
    destruct (BuildPrompt env workdir "" (amend opts) 128000) as [e|msgs];
      [left; exists e; split; reflexivity|right].
    exists msgs. split; [reflexivity|].
    cbn zeta. rewrite bind_inr.
    destruct (CreateChatCompletionStream env (client opts)
                (request opts (add_context msgs (context opts)))) as [e|stream];
      [left; exists e; split; reflexivity|right].
    exists stream. split; [reflexivity|]. rewrite bind_inr. reflexivity.
  - exists [EvOutput args], workdir, (strings.TrimSpace out). split.
    { intros ev [<-|[]]. cbn. rewrite O. auto. }
    destruct (BuildPrompt env workdir (strings.TrimSpace out) (amend opts) 128000)
      as [e|msgs]; [left; exists e; split; reflexivity|right].
    exists msgs. split; [reflexivity|].
    cbn zeta. rewrite bind_inr.
    destruct (CreateChatCompletionStream env (client opts)
                (request opts (add_context msgs (context opts)))) as [e|stream];
      [left; exists e; split; reflexivity|right].
    exists stream. split; [reflexivity|]. rewrite bind_inr. reflexivity.
Qed.

(** Events of the kinds met before and after the request contribute
    nothing to a projection that reads other kinds. *)
Lemma rev_parse_only_requests (env : Env) (pre : list Event) :
  (forall ev, In ev pre -> failed_call env ev = None /\ is_rev_parse ev = true) ->
  sent_requests pre = [] /\ budgets pre = [] /\ commands_run pre = []
  /\ forall ev, In ev pre -> is_network_call ev = false /\ built env ev = None.
Proof.
  intros H. repeat split.
  1-3: apply flat_map_nil; intros ev Hev; apply H in Hev as [_ Hev];
       destruct ev; try discriminate; reflexivity.
  all: match goal with
       | K : In ?ev _ |- _ =>
           apply H in K as [_ K]; destruct ev; try discriminate; reflexivity
       end.
Qed.

Lemma after_open_projections (env : Env) (t : list Event) :
  (forall ev, In ev t -> after_open ev = true) ->
  sent_requests t = [] /\ budgets t = []
  /\ forall ev, In ev t -> failed_call env ev = None /\ built env ev = None.
Proof.
  intros H. repeat split.
  1-2: apply flat_map_nil; intros ev Hev; apply H in Hev;
       destruct ev; try discriminate; reflexivity.
  all: match goal with
       | K : In ?ev _ |- _ =>
           apply H in K; destruct ev; try discriminate; reflexivity
       end.
Qed.

(** The one request of a run whose [BuildPrompt] call succeeded. *)
Lemma requests_of_run (env : Env) (opts : runOptions)
  (ev : Event) (msgs : list ChatCompletionMessage) :
  In ev (trace (run env opts)) ->
  built env ev = Some msgs ->
  sent_requests (trace (run env opts))
  = [request opts (add_context msgs (context opts))].
Proof.
  intros Hin Hb.
  destruct (run_cases env opts)
    as [[e0 R]|[(args & e0 & e' & R & O & W)
       |(pre & dir & hash & Hpre & [(e0 & B & R)|(msgs0 & B & S)])]].
  - rewrite R in Hin. destruct Hin as [<-|[]]. discriminate.
  - rewrite R in Hin. destruct Hin as [<-|[<-|[]]]; discriminate.
  - rewrite R in Hin. unfold trace in Hin. cbn [fst] in Hin.
    destruct Hin as [<-|Hin]; [discriminate|].
    apply in_app_iff in Hin as [Hin|[<-|[]]].
    + apply (rev_parse_only_requests env pre Hpre) in Hin as [_ Hin]. congruence.
    + cbn in Hb. rewrite B in Hb. discriminate.
  - cbn zeta in S.
    destruct (rev_parse_only_requests env pre Hpre) as (Q & _ & _ & P).
    assert (forall t, (forall ev, In ev t -> after_open ev = true) ->
              In ev (EvGetwd :: pre
                       ++ [EvBuildPrompt dir hash (amend opts) 128000;
                           EvCreateChatCompletionStream (client opts)
                             (request opts (add_context msgs0 (context opts)))]
                       ++ t) ->
              msgs0 = msgs
              /\ sent_requests
                   (EvGetwd :: pre
                      ++ [EvBuildPrompt dir hash (amend opts) 128000;
                          EvCreateChatCompletionStream (client opts)
                            (request opts (add_context msgs0 (context opts)))]
                      ++ t)
                 = [request opts (add_context msgs0 (context opts))]) as K.
    { intros t Ht Hev. split.
      - destruct Hev as [<-|Hev]; [discriminate|].
        apply in_app_iff in Hev as [Hev|[<-|[<-|Hev]]].
        + apply P in Hev as [_ Hev]. congruence.
        + cbn in Hb. rewrite B in Hb. congruence.
        + discriminate.
        + apply (after_open_projections env t Ht) in Hev as [_ Hev]. congruence.
      - unfold sent_requests. cbn [flat_map app].
        rewrite flat_map_app. fold (sent_requests pre). rewrite Q.
        cbn [flat_map app]. fold (sent_requests t).
        now destruct (after_open_projections env t Ht) as [-> _]. }
    destruct S as [(e0 & C & R)|(stream & C & R)]; rewrite R in *;
      unfold trace in *; cbn [fst] in *.
    + destruct (K [] (fun ev (H : In ev []) => match H with end) Hin) as [<- E].
      exact E.
    + destruct (K _ (receive_and_commit_events env opts stream) Hin) as [<- E].
      exact E.
Qed.

Lemma budgets_of_run (env : Env) (opts : runOptions) (b : Z) :
  In b (budgets (trace (run env opts))) -> b = 128000%Z.
Proof.
  destruct (run_cases env opts)
    as [[e0 R]|[(args & e0 & e' & R & O & W)
       |(pre & dir & hash & Hpre & S)]].
  - rewrite R. intros [].
  - rewrite R. intros [].
  - destruct (rev_parse_only_requests env pre Hpre) as (_ & Q & _).
    assert (forall t, budgets t = [] ->
              In b (budgets (EvGetwd :: pre
                               ++ EvBuildPrompt dir hash (amend opts) 128000 :: t)) ->
              b = 128000%Z) as K.
    { intros t Ht. unfold budgets. cbn [flat_map app].
      rewrite flat_map_app. fold (budgets pre). rewrite Q.
      cbn [flat_map app]. fold (budgets t). rewrite Ht.
      intros [<-|[]]. reflexivity. }
    destruct S as [(e0 & B & R)|(msgs & B & [(e0 & C & R)|(stream & C & R)])];
      rewrite R; unfold trace; cbn [fst]; apply K; [reflexivity|reflexivity|].
    cbn [flat_map app budgets].
    apply (after_open_projections env _ (receive_and_commit_events env opts stream)).
Qed.

(** ** The driver [run] *)

(** C4.  Whenever a call into the core fails (reading a commit with
    [git rev-parse], or compiling the prompt with [BuildPrompt]), [run]
    returns that error, as it is or wrapped, and its log holds no network
    call: the completion stream is neither opened nor read. *)
Theorem core_failure_stops_before_network (env : Env) (opts : runOptions) (e : error) :
  (exists ev, In ev (trace (run env opts)) /\ failed_call env ev = Some e) ->
  (exists e', returned (run env opts) = Some e' /\ (e' = e \/ Unwrap e' = Some e))
  /\ forall ev, In ev (trace (run env opts)) -> is_network_call ev = false.
Proof.
  intros (ev0 & Hin & Hfail).
  destruct (run_cases env opts)
    as [[e0 R]|[(args & e0 & e' & R & O & W)
       |(pre & dir & hash & Hpre & [(e0 & B & R)|(msgs & B & S)])]].
  - rewrite R in *. cbn in Hin. destruct Hin as [<-|[]]. discriminate.
  - rewrite R in *. cbn in Hin. destruct Hin as [<-|[<-|[]]]; [discriminate|].
    cbn in Hfail. rewrite O in Hfail. injection Hfail as ->.
    split; [exists e'; auto|].
    intros ev [<-|[<-|[]]]; reflexivity.
  - rewrite R in *. unfold trace, returned in *. cbn [fst snd] in *.
    destruct Hin as [<-|Hin]; [discriminate|].
    apply in_app_iff in Hin as [Hin|[<-|[]]].
    { apply Hpre in Hin as [Hin _]. congruence. }
    cbn in Hfail. rewrite B in Hfail. injection Hfail as ->.
    split; [exists e; auto|].
    intros ev [<-|Hev]; [reflexivity|].
    apply in_app_iff in Hev as [Hev|[<-|[]]]; [|reflexivity].
    now apply (rev_parse_only_requests env pre Hpre).
  - exfalso. cbn zeta in S.
    assert (forall t, (forall ev, In ev t -> after_open ev = true) ->
              In ev0 (EvGetwd :: pre
                        ++ [EvBuildPrompt dir hash (amend opts) 128000;
                            EvCreateChatCompletionStream (client opts)
                              (request opts (add_context msgs (context opts)))]
                        ++ t) -> False) as K.
    { intros t Ht [<-|Hev]; [discriminate|].
      apply in_app_iff in Hev as [Hev|[<-|[<-|Hev]]].
      - apply Hpre in Hev as [Hev _]. congruence.
      - cbn in Hfail. rewrite B in Hfail. discriminate.
      - discriminate.
      - apply (after_open_projections env t Ht) in Hev as [Hev _]. congruence. }
    destruct S as [(e0 & C & R)|(stream & C & R)]; rewrite R in Hin;
      unfold trace in Hin; cbn [fst] in Hin.
    + apply (K []); [intros ev []|]. exact Hin.
    + apply (K _ (receive_and_commit_events env opts stream)). exact Hin.
Qed.
(** C10.  With no context strings, the messages of the request handed to
    the chat-completion transport are exactly those [BuildPrompt] returned:
    none added, none removed, none moved. *)
Theorem empty_context_sends_prompt_unchanged (env : Env) (opts : runOptions)
  (ev : Event) (msgs : list ChatCompletionMessage) :
  context opts = [] ->
  In ev (trace (run env opts)) ->
  built env ev = Some msgs ->
  map Messages (sent_requests (trace (run env opts))) = [msgs].
Proof.
  intros Hc Hin Hb.
  rewrite (requests_of_run env opts ev msgs Hin Hb), Hc. reflexivity.
Qed.
(** C3, as amended.  The messages sent are those of [BuildPrompt], in their
    order, followed when context strings were given by one system-role
    message announcing them and then by one user-role message for each
    context string, in the caller's order.  So every context string comes
    after the diff content, and the announcing system message comes after
    it too. *)
Theorem context_messages_follow_prompt (env : Env) (opts : runOptions)
  (ev : Event) (msgs : list ChatCompletionMessage) :
  In ev (trace (run env opts)) ->
  built env ev = Some msgs ->
  map Messages (sent_requests (trace (run env opts)))
  = [(msgs ++ match context opts with
              | [] => []
              | _ :: _ => context_header :: map user_message (context opts)
              end)%list].
Proof.
  intros Hin Hb.
  rewrite (requests_of_run env opts ev msgs Hin Hb), add_context_eq.
  destruct (context opts); [rewrite app_nil_r|]; reflexivity.
Qed.
(** C2, as amended.  Past the messages of [BuildPrompt], the user-role
    messages of the request carry exactly the caller's context strings,
    each whole and in order, whatever their size: [run] measures none of
    them against the budget and drops none. *)
Theorem context_strings_all_sent_whole (env : Env) (opts : runOptions)
  (ev : Event) (msgs : list ChatCompletionMessage) :
  In ev (trace (run env opts)) ->
  built env ev = Some msgs ->
  exists sent,
    map Messages (sent_requests (trace (run env opts))) = [sent]
    /\ firstn (List.length msgs) sent = msgs
    /\ map Content (filter is_user (skipn (List.length msgs) sent)) = context opts.
Proof.
  intros Hin Hb.
  rewrite (requests_of_run env opts ev msgs Hin Hb), add_context_eq.
  eexists. split; [reflexivity|]. cbn [Messages request].
  destruct (context opts) as [|c rest] eqn:C.
  - rewrite firstn_all, skipn_all. auto.
  - rewrite firstn_app, firstn_all, Nat.sub_diag, skipn_app, skipn_all,
      Nat.sub_diag.
    cbn [firstn skipn app filter is_user context_header Role].
    rewrite app_nil_r. split; [reflexivity|].
    apply (user_contents (c :: rest)).
Qed.
(** C6, as amended.  In every invocation, whatever the caller's options,
    the budget [BuildPrompt] receives is the constant 128000. *)
Theorem budget_is_the_constant (env : Env) (opts : runOptions) :
  forallb (Z.eqb 128000) (budgets (trace (run env opts))) = true.
Proof.
  apply forallb_forall. intros b Hb.
  apply budgets_of_run in Hb. now subst b.
Qed.
(** C7, as amended.  When the working directory is known, [--amend] is not
    set and [git rev-parse] cannot resolve the given ref, [run] stops after
    that call and returns git's error wrapped by
    [fmt.Errorf("resolve ref %q: %w", ref, err)]; the error itself is what
    [errors.Unwrap] gives back. *)
Theorem unresolved_ref_error_is_wrapped (env : Env) (opts : runOptions)
  (dir : string) (e : error) :
  os_Getwd env = inr dir ->
  amend opts = false ->
  ref opts <> "" ->
  cmd_Output env ["git"; "rev-parse"; ref opts] = inl e ->
  run env opts
  = ([EvGetwd; EvOutput ["git"; "rev-parse"; ref opts]],
     inl (fmt_Errorf_w "resolve ref %q: %w" (ref opts) e))
  /\ Unwrap (fmt_Errorf_w "resolve ref %q: %w" (ref opts) e) = Some e.
Proof.
  intros Hwd Ha Hr Ho. split; [|reflexivity].
  apply String.eqb_neq in Hr.
  unfold run, call. rewrite Hwd, bind_inr, Ha, Hr. cbn [negb andb].
  unfold commit_hash, resolveRef, Output, exec_Command, call. cbn [Args].
  rewrite Ha, Hr, Ho. reflexivity.
Qed.
(** C8, as amended.  With both a ref and [--amend], [run] does nothing but
    ask for the working directory: it returns "cannot use both [ref] and
    --amend" when that is known and the error of [os.Getwd] otherwise, and
    in both cases resolves no reference, collects no changes and makes no
    network call. *)
Theorem ref_and_amend_rejected (env : Env) (opts : runOptions) :
  ref opts <> "" ->
  amend opts = true ->
  run env opts
  = ([EvGetwd],
     inl match os_Getwd env with
         | inl e => e
         | inr _ => errors_New "cannot use both [ref] and --amend"
         end).
Proof.
  intros Hr Ha. apply String.eqb_neq in Hr.
  unfold run, call. destruct (os_Getwd env) as [e|dir]; [reflexivity|].
  rewrite bind_inr, Ha, Hr. reflexivity.
Qed.

(** ** The prompt compiler of the specification *)

Lemma length_append (a b : string) :
  String.length (a ++ b) = String.length a + String.length b.
Proof.
  induction a as [|c a IH]; simpl; [reflexivity|]. now rewrite IH.
Qed.

Module CompilerFacts.

Import PromptCompiler.

Section Budget.

Variable cfg : Settings.

Lemma cost_nonneg (text : string) : (0 <= cost cfg text)%Z.
Proof. unfold cost. lia. Qed.

Lemma content_cost_nonneg (content : option string) :
  (0 <= content_cost cfg content)%Z.
Proof. destruct content; cbn; [apply cost_nonneg|lia]. Qed.











Section Subadditive.

Hypothesis estimate_app :
  forall a b, estimate cfg (a ++ b) <= estimate cfg a + estimate cfg b.





End Subadditive.



(** Below the cost of the system message there is no prompt. *)
Lemma compile_budget_too_small (cs : ChangeSet) (budget : Z)
  (context : list string) :
  (budget < cost cfg (system_prompt cfg))%Z ->
  compile cfg cs budget context = inl BudgetTooSmallError.
Proof.
  intros H. unfold compile. apply Z.ltb_lt in H. now rewrite H.
Qed.

End Budget.



End CompilerFacts.

(** ** The properties at sample invocations *)

Import Sample.

(** C4 at an invocation with nothing staged. *)
Lemma core_failure_stops_before_network_witness :
  (exists e', returned (run no_changes_env (opts_with false false "" ["a hint"]))
              = Some e'
              /\ (e' = foreign "no changes detected"
                  \/ Unwrap e' = Some (foreign "no changes detected")))
  /\ forall ev,
       In ev (trace (run no_changes_env (opts_with false false "" ["a hint"]))) ->
       is_network_call ev = false.
Proof.
  apply (core_failure_stops_before_network no_changes_env
           (opts_with false false "" ["a hint"])
           (foreign "no changes detected")).
  exists (EvBuildPrompt "/repo" "" false 128000).
  split; [cbn; auto|reflexivity].
Defined.

(** C10 at a dry run without context. *)
Lemma empty_context_sends_prompt_unchanged_witness :
  map Messages (sent_requests (trace (run good_env (opts_with true false "" []))))
  = [a_prompt].
Proof.
  apply (empty_context_sends_prompt_unchanged good_env
           (opts_with true false "" [])
           (EvBuildPrompt "/repo" "" false 128000) a_prompt);
    [reflexivity|cbn; auto|reflexivity].
Defined.

(** C3, as amended, at an invocation with one hint. *)
Lemma context_messages_follow_prompt_witness :
  map Messages
      (sent_requests (trace (run good_env (opts_with true false "" ["a hint"]))))
  = [(a_prompt ++ [context_header; user_message "a hint"])%list].
Proof.
  apply (context_messages_follow_prompt good_env
           (opts_with true false "" ["a hint"])
           (EvBuildPrompt "/repo" "" false 128000) a_prompt);
    [cbn; auto|reflexivity].
Defined.

(** C3 as first stated fails: [BuildPrompt] returns its system message
    before its user message, and with one hint the request sent has a
    system-role message after user content. *)
Lemma system_message_follows_user_content :
  map (fun req => system_first (Messages req))
      (sent_requests (trace (run good_env (opts_with true false "" ["a hint"]))))
  = [false]
  /\ built good_env (EvBuildPrompt "/repo" "" false 128000) = Some a_prompt
  /\ system_first a_prompt = true.
Proof. repeat split. Qed.

(** C2, as amended, at an invocation with three hints. *)
Lemma context_strings_all_sent_whole_witness :
  exists sent,
    map Messages
        (sent_requests
           (trace (run good_env (opts_with false false "" ["one"; "two"; "three"]))))
    = [sent]
    /\ firstn (List.length a_prompt) sent = a_prompt
    /\ map Content (filter is_user (skipn (List.length a_prompt) sent))
       = ["one"; "two"; "three"].
Proof.
  apply (context_strings_all_sent_whole good_env
           (opts_with false false "" ["one"; "two"; "three"])
           (EvBuildPrompt "/repo" "" false 128000) a_prompt);
    [cbn; auto|reflexivity].
Defined.

(** C2 as first stated fails, in its scenario E.  A token being a byte,
    the budget of 128000 less the prompt has room for the first two hints
    and not for the third, which the specification would drop with a
    warning; [run] sends all three, and the request costs more than the
    budget. *)
Lemma scenario_E_nothing_dropped :
  PromptCompiler.fit_context byte_count
    (128000 - PromptCompiler.total_cost byte_count a_prompt) three_hints
  = (["closes the login bug"; "keep it short"],
     [PromptCompiler.ContextDropped long_hint])
  /\ map Messages
         (sent_requests (trace (run good_env (opts_with false false "" three_hints))))
     = [(a_prompt ++ context_header :: map user_message three_hints)%list]
  /\ (128000
      <? PromptCompiler.total_cost byte_count
           (a_prompt ++ context_header :: map user_message three_hints)%list)%Z
     = true.
Proof. repeat split; vm_compute; reflexivity. Qed.

(** C6 as first stated fails: no environment and no options make
    [BuildPrompt] receive a budget of 4096. *)
Lemma no_caller_sets_the_budget :
  ~ exists env opts, In 4096%Z (budgets (trace (run env opts))).
Proof.
  intros (env & opts & H). apply budgets_of_run in H. discriminate.
Qed.

(** Two callers whose options differ throughout: both budgets are 128000. *)
Lemma budget_received_by_two_callers :
  budgets (trace (run good_env (opts_with false false "" []))) = [128000%Z]
  /\ budgets (trace (run fenced_env (opts_with true true "" ["budget 4096"])))
     = [128000%Z].
Proof. split; reflexivity. Qed.

(** C7, as amended, at a ref that git does not know. *)
Lemma unresolved_ref_error_is_wrapped_witness :
  run no_ref_env (opts_with false false "nope" [])
  = ([EvGetwd; EvOutput ["git"; "rev-parse"; "nope"]],
     inl (fmt_Errorf_w "resolve ref %q: %w" "nope" (foreign "exit status 128")))
  /\ Unwrap (fmt_Errorf_w "resolve ref %q: %w" "nope" (foreign "exit status 128"))
     = Some (foreign "exit status 128").
Proof.
  apply (unresolved_ref_error_is_wrapped no_ref_env
           (opts_with false false "nope" []) "/repo" (foreign "exit status 128"));
    [reflexivity|reflexivity|discriminate|reflexivity].
Defined.

(** C7 as first stated fails: the error [run] returns for an unknown ref
    is not the one [git rev-parse] gave. *)
Lemma unresolved_ref_error_changed :
  cmd_Output no_ref_env ["git"; "rev-parse"; "nope"]
  = inl (foreign "exit status 128")
  /\ returned (run no_ref_env (opts_with false false "nope" []))
     = Some (fmt_Errorf_w "resolve ref %q: %w" "nope" (foreign "exit status 128"))
  /\ returned (run no_ref_env (opts_with false false "nope" []))
     <> Some (foreign "exit status 128").
Proof. repeat split. discriminate. Qed.

(** C8, as amended, at an invocation with a ref and [--amend]. *)
Lemma ref_and_amend_rejected_witness :
  run good_env (opts_with false true "HEAD~1" [])
  = ([EvGetwd], inl (errors_New "cannot use both [ref] and --amend")).
Proof.
  apply (ref_and_amend_rejected good_env (opts_with false true "HEAD~1" []));
    [discriminate|reflexivity].
Defined.

(** C8 as first stated fails: without a working directory, a ref together
    with [--amend] yields the error of [os.Getwd]. *)
Lemma ref_and_amend_without_working_directory :
  returned (run no_wd_env (opts_with false true "HEAD~1" []))
  = Some (foreign "getwd: no such file or directory")
  /\ returned (run no_wd_env (opts_with false true "HEAD~1" []))
     <> Some (errors_New "cannot use both [ref] and --amend").
Proof. split; [reflexivity|discriminate]. Qed.


(** C5 fails on the program.  A reply that arrives inside a code fence is
    committed as it was received, fence and all; [cleanAIMessage], which
    would strip it, is never applied. *)
Lemma fenced_reply_committed_as_received :
  commands_run (trace (run fenced_env (opts_with false false "" [])))
  = [["git"; "commit"; "-m"; fenced_text]]
  /\ cleanAIMessage fenced_text = "fix: typo"
  /\ fenced_text <> cleanAIMessage fenced_text.
Proof. repeat split. discriminate. Qed.

(** * More of the program *)

(** ** Texts *)

Lemma append_nil_r (s : string) : s ++ "" = s.
Proof. induction s as [|c s IH]; simpl; [reflexivity|]. now rewrite IH. Qed.

Lemma append_assoc (a b c : string) : (a ++ b) ++ c = a ++ (b ++ c).
Proof. induction a as [|x a IH]; simpl; [reflexivity|]. now rewrite IH. Qed.

Lemma concat_cons (x : string) (xs : list string) :
  String.concat "" (x :: xs) = x ++ String.concat "" xs.
Proof.
  destruct xs as [|y ys]; simpl; [now rewrite append_nil_r|reflexivity].
Qed.

Lemma fold_left_quoted (env : Env) (args : list string) :
  forall buf,
    fold_left (fun buf arg => buf ++ " " ++ shellescape_Quote env arg) args buf
    = buf ++ String.concat ""
               (map (fun arg => " " ++ shellescape_Quote env arg) args).
Proof.
  induction args as [|a rest IH]; intros buf.
  - simpl. now rewrite append_nil_r.
  - cbn [fold_left map]. rewrite IH, concat_cons, !append_assoc. reflexivity.
Qed.

(** X1.  [formatShellCommand] prints the base name of the command's path
    and then every argument after the first, each quoted and each after
    one space; the first argument, the command's own name, is not
    printed. *)
Theorem formatShellCommand_joins_quoted_arguments
  (env : Env) (path name : string) (args : list string) :
  formatShellCommand env {| Path := path; Args := name :: args |}
  = filepath_Base env path
    ++ String.concat "" (map (fun arg => " " ++ shellescape_Quote env arg) args).
Proof. unfold formatShellCommand. cbn [Args Path tl]. apply fold_left_quoted. Qed.

Lemma prefix_append (p s : string) : String.prefix p (p ++ s) = true.
Proof.
  induction p as [|c p IH]; simpl; [now destruct s|].
  destruct (ascii_dec c c); [exact IH|congruence].
Qed.

Lemma substring_all (s : string) : substring 0 (String.length s) s = s.
Proof. induction s as [|c s IH]; simpl; [reflexivity|]. now rewrite IH. Qed.

Lemma substring_prefix (a b : string) :
  substring 0 (String.length a) (a ++ b) = a.
Proof.
  induction a as [|c a IH]; simpl; [now destruct b|]. now rewrite IH.
Qed.

Lemma substring_suffix (a b : string) :
  substring (String.length a) (String.length b) (a ++ b) = b.
Proof.
  induction a as [|c a IH]; simpl; [apply substring_all|exact IH].
Qed.

Lemma list_ascii_of_append (a b : string) :
  list_ascii_of_string (a ++ b)
  = (list_ascii_of_string a ++ list_ascii_of_string b)%list.
Proof. induction a as [|c a IH]; simpl; [reflexivity|]. now rewrite IH. Qed.

Lemma string_of_list_app (a b : list ascii) :
  string_of_list_ascii (a ++ b)
  = string_of_list_ascii a ++ string_of_list_ascii b.
Proof. induction a as [|c a IH]; simpl; [reflexivity|]. now rewrite IH. Qed.

Lemma reverse_append (a b : string) :
  strings.reverse (a ++ b) = strings.reverse b ++ strings.reverse a.
Proof.
  unfold strings.reverse.
  now rewrite list_ascii_of_append, rev_app_distr, string_of_list_app.
Qed.

Lemma reverse_involutive (s : string) : strings.reverse (strings.reverse s) = s.
Proof.
  unfold strings.reverse.
  now rewrite list_ascii_of_string_of_list_ascii, rev_involutive,
    string_of_list_ascii_of_string.
Qed.

Lemma HasPrefix_append (p s : string) : strings.HasPrefix (p ++ s) p = true.
Proof. apply prefix_append. Qed.

Lemma HasSuffix_append (s p : string) : strings.HasSuffix (s ++ p) p = true.
Proof. unfold strings.HasSuffix. rewrite reverse_append. apply prefix_append. Qed.

Lemma TrimPrefix_append (p s : string) : strings.TrimPrefix (p ++ s) p = s.
Proof.
  unfold strings.TrimPrefix. rewrite HasPrefix_append, length_append.
  replace (String.length p + String.length s - String.length p)
    with (String.length s) by lia.
  apply substring_suffix.
Qed.

Lemma TrimSuffix_append (s p : string) : strings.TrimSuffix (s ++ p) p = s.
Proof.
  unfold strings.TrimSuffix. rewrite HasSuffix_append, length_append.
  replace (String.length s + String.length p - String.length p)
    with (String.length s) by lia.
  apply substring_prefix.
Qed.

(** X2.  A message that opens and closes with a code fence is cleaned to
    what stands between the fences, with the white space around it
    trimmed. *)
Theorem cleanAIMessage_strips_fence_pair (body : string) :
  cleanAIMessage ("```" ++ body ++ "```") = strings.TrimSpace body.
Proof.
  unfold cleanAIMessage. rewrite HasPrefix_append.
  rewrite <- append_assoc, TrimSuffix_append, TrimPrefix_append. reflexivity.
Qed.

(** X3.  An opening fence that is never closed is stripped all the same:
    the rest of the message is kept, trimmed. *)
Theorem cleanAIMessage_strips_open_fence_alone (body : string) :
  strings.HasSuffix ("```" ++ body) "```" = false ->
  cleanAIMessage ("```" ++ body) = strings.TrimSpace body.
Proof.
  intros H. unfold cleanAIMessage. rewrite HasPrefix_append.
  unfold strings.TrimSuffix. rewrite H, TrimPrefix_append. reflexivity.
Qed.

Lemma is_byte_high (n : nat) (a : ascii) :
  128 <= n < 256 -> (nat_of_ascii a <? 128)%nat = true ->
  strings.is_byte n a = false.
Proof.
  intros Hn Ha. apply Nat.ltb_lt in Ha.
  unfold strings.is_byte, strings.byte.
  destruct (Ascii.eqb a (ascii_of_nat n)) eqn:E; [|reflexivity].
  apply Ascii.eqb_eq in E. subst a.
  rewrite nat_ascii_embedding in Ha; lia.
Qed.

Lemma plain_no_rune (a : ascii) :
  plain a = true ->
  strings.asciiSpace a = false
  /\ (forall b, strings.space2 a b = false)
  /\ (forall b, strings.space2 b a = false)
  /\ (forall b c, strings.space3 a b c = false)
  /\ (forall b c, strings.space3 c b a = false).
Proof.
  unfold plain. intros H. apply andb_true_iff in H as [Hlt Hsp].
  apply negb_true_iff in Hsp.
  assert (forall n, 128 <= n < 256 -> strings.is_byte n a = false) as Hb
    by (intros n Hn; now apply is_byte_high).
  assert ((128 <=? nat_of_ascii a)%nat = false) as Hr.
  { apply Nat.ltb_lt in Hlt. apply Nat.leb_gt. exact Hlt. }
  repeat split; [exact Hsp|..]; intros; unfold strings.space2, strings.space3;
    rewrite ?Hr, ?Hb by lia; cbn [andb orb];
    rewrite ?andb_false_r; reflexivity.
Qed.

Lemma trimLeading_plain (mirror : bool) (s : string) :
  is_plain (first_byte s) = true -> strings.trimLeading mirror s = s.
Proof.
  destruct s as [|a r1]; [discriminate|]. cbn [first_byte is_plain].
  intros H. destruct (plain_no_rune a H) as (H1 & H2 & H3 & H4 & H5).
  cbn [strings.trimLeading]. rewrite H1.
  destruct r1 as [|b r2]; [reflexivity|].
  destruct mirror; rewrite ?H2, ?H3.
  - destruct r2 as [|c r3]; [reflexivity|]. now rewrite H5.
  - destruct r2 as [|c r3]; [reflexivity|]. now rewrite H4.
Qed.

Lemma trimLeading_blanks (mirror : bool) (ws s : string) :
  blanks ws = true ->
  strings.trimLeading mirror (ws ++ s) = strings.trimLeading mirror s.
Proof.
  unfold blanks. induction ws as [|c ws IH]; [reflexivity|].
  cbn [list_ascii_of_string forallb]. intros H.
  apply andb_true_iff in H as [Hc Hws].
  cbn [append strings.trimLeading]. rewrite Hc. now apply IH.
Qed.

Lemma reverse_blanks (ws : string) :
  blanks ws = true ->
  blanks (strings.reverse ws) = true.
Proof.
  unfold blanks, strings.reverse. rewrite list_ascii_of_string_of_list_ascii.
  rewrite !forallb_forall. intros H c Hc. apply H. now apply in_rev.
Qed.

(** [strings.TrimSpace] removes ASCII white space around a text whose
    first and last bytes are ASCII and not white space. *)
Lemma TrimSpace_around (before text after : string) :
  blanks before = true ->
  blanks after = true ->
  is_plain (first_byte text) = true ->
  is_plain (last_byte text) = true ->
  strings.TrimSpace (before ++ text ++ after) = text.
Proof.
  intros Hb Ha Hf Hl. unfold strings.TrimSpace.
  rewrite trimLeading_blanks by exact Hb.
  rewrite (trimLeading_plain false (text ++ after))
    by (destruct text; [discriminate|exact Hf]).
  rewrite reverse_append, trimLeading_blanks by now apply reverse_blanks.
  rewrite (trimLeading_plain true (strings.reverse text)) by exact Hl.
  apply reverse_involutive.
Qed.

Lemma trimLeading_facts (mirror : bool) (n : nat) :
  forall s, String.length s <= n ->
    is_blank (first_byte (strings.trimLeading mirror s)) = false
    /\ exists dropped, s = dropped ++ strings.trimLeading mirror s.
Proof.
  induction n as [|n IH]; intros s Hn.
  - destruct s; [|simpl in Hn; lia]. split; [reflexivity|now exists ""].
  - destruct s as [|a r1]; [split; [reflexivity|now exists ""]|].
    cbn [strings.trimLeading].
    destruct (strings.asciiSpace a) eqn:Sa.
    { destruct (IH r1) as [H (d & E)]; [simpl in Hn; lia|].
      split; [exact H|]. exists (String a d). cbn. now rewrite <- E. }
    assert (is_blank (first_byte (String a r1)) = false
            /\ exists dropped, String a r1 = dropped ++ String a r1) as Keep
      by (split; [exact Sa|now exists ""]).
    destruct r1 as [|b r2]; [exact Keep|].
    destruct (if mirror then strings.space2 b a else strings.space2 a b).
    { destruct (IH r2) as [H (d & E)]; [simpl in Hn; lia|].
      split; [exact H|]. exists (String a (String b d)). cbn. now rewrite <- E. }
    destruct r2 as [|c r3]; [exact Keep|].
    destruct (if mirror then strings.space3 c b a else strings.space3 a b c);
      [|exact Keep].
    destruct (IH r3) as [H (d & E)]; [simpl in Hn; lia|].
    split; [exact H|]. exists (String a (String b (String c d))). cbn.
    now rewrite <- E.
Qed.

Lemma first_byte_append (a b : string) :
  a <> "" -> first_byte (a ++ b) = first_byte a.
Proof. destruct a; [congruence|reflexivity]. Qed.

(** What [strings.TrimSpace] returns neither starts nor ends with ASCII
    white space. *)
Lemma TrimSpace_no_blank_ends (s : string) :
  is_blank (first_byte (strings.TrimSpace s)) = false
  /\ is_blank (last_byte (strings.TrimSpace s)) = false.
Proof.
  unfold strings.TrimSpace, last_byte.
  set (t := strings.trimLeading false s).
  destruct (trimLeading_facts false (String.length s) s (le_n _)) as [Ht _].
  fold t in Ht.
  destruct (trimLeading_facts true _ (strings.reverse t) (le_n _)) as [Hu (d & E)].
  set (u := strings.trimLeading true (strings.reverse t)) in *.
  split; [|now rewrite reverse_involutive].
  assert (t = strings.reverse u ++ strings.reverse d) as Et.
  { rewrite <- reverse_append, <- E. symmetry. apply reverse_involutive. }
  destruct (strings.reverse u) as [|a r] eqn:R; [reflexivity|].
  rewrite Et in Ht. exact Ht.
Qed.

Lemma commit_hash_Output (env : Env) (opts : runOptions) :
  (amend opts = true \/ ref opts <> "") ->
  commit_hash env opts
  = ([EvOutput ["git"; "rev-parse"; revision opts]],
     match cmd_Output env ["git"; "rev-parse"; revision opts] with
     | inl e => inl (if amend opts then e
                     else fmt_Errorf_w "resolve ref %q: %w" (ref opts) e)
     | inr out => inr (strings.TrimSpace out)
     end).
Proof.
  intros H. unfold commit_hash, revision, getLastCommitHash, resolveRef, Output,
    exec_Command, call. cbn [Args].
  destruct (amend opts).
  - now destruct (cmd_Output env _).
  - destruct H as [H|H]; [discriminate|]. apply String.eqb_neq in H. rewrite H.
    cbn [negb]. now destruct (cmd_Output env _).
Qed.

Lemma commit_hash_staged (env : Env) (opts : runOptions) :
  amend opts = false -> ref opts = "" -> commit_hash env opts = ([], inr "").
Proof. intros A R. unfold commit_hash. now rewrite A, R. Qed.

(** [run] past the two checks it starts with. *)
Lemma run_past_checks (env : Env) (opts : runOptions) (dir : string) :
  os_Getwd env = inr dir ->
  (amend opts = false \/ ref opts = "") ->
  run env opts
  = (let h := commit_hash env opts in
     match snd h with
     | inl e => (EvGetwd :: fst h, inl e)
     | inr hash =>
         let build := EvBuildPrompt dir hash (amend opts) 128000 in
         match BuildPrompt env dir hash (amend opts) 128000 with
         | inl e => ((EvGetwd :: fst h ++ [build])%list, inl e)
         | inr msgs =>
             let req := request opts (add_context msgs (context opts)) in
             let open := EvCreateChatCompletionStream (client opts) req in
             match CreateChatCompletionStream env (client opts) req with
             | inl e => ((EvGetwd :: fst h ++ [build; open])%list, inl e)
             | inr stream =>
                 ((EvGetwd :: fst h ++ [build; open]
                     ++ trace (receive_and_commit env opts stream))%list,
                  snd (receive_and_commit env opts stream))
             end
         end
     end).
Proof.
  intros G F. unfold run, call. rewrite G, bind_inr.
  assert (negb (ref opts =? "") && amend opts = false) as ->.
  { destruct F as [-> | ->]; [apply andb_false_r|reflexivity]. }
  cbn zeta. destruct (commit_hash env opts) as [t [e|hash]]; cbn [fst snd app].
  - reflexivity.
  - rewrite bind_inr.
    destruct (BuildPrompt env dir hash (amend opts) 128000) as [e|msgs].
    + rewrite bind_inl. cbn [fst snd]. reflexivity.
    + rewrite bind_inr. cbn [fst snd].
      destruct (CreateChatCompletionStream env (client opts) _) as [e|stream].
      * rewrite bind_inl. cbn [fst snd app]. reflexivity.
      * rewrite bind_inr. cbn [fst snd app]. unfold trace. reflexivity.
Qed.

Lemma run_rejected (env : Env) (opts : runOptions) (dir : string) :
  os_Getwd env = inr dir ->
  amend opts = true -> ref opts <> "" ->
  run env opts = ([EvGetwd], inl (errors_New "cannot use both [ref] and --amend")).
Proof.
  intros G A R. apply String.eqb_neq in R.
  unfold run, call. rewrite G, bind_inr, A, R. reflexivity.
Qed.

Lemma after_open_no_rev_parse (t : list Event) :
  (forall ev, In ev t -> after_open ev = true) -> rev_parse_calls t = [].
Proof.
  intros H. apply flat_map_nil. intros ev Hev. apply H in Hev.
  destruct ev; try discriminate; reflexivity.
Qed.

Lemma rev_parse_calls_past_checks (env : Env) (opts : runOptions)
  (dir : string) :
  os_Getwd env = inr dir ->
  (amend opts = false \/ ref opts = "") ->
  rev_parse_calls (trace (run env opts))
  = rev_parse_calls (fst (commit_hash env opts)).
Proof.
  intros G F. rewrite (run_past_checks env opts dir G F). cbn zeta.
  destruct (commit_hash env opts) as [t [e|hash]]; cbn [fst snd];
    [reflexivity|].
  assert (forall tail, rev_parse_calls tail = [] ->
            rev_parse_calls (EvGetwd :: t ++ tail) = rev_parse_calls t) as K.
  { intros tail H. unfold rev_parse_calls in *. cbn [flat_map app].
    now rewrite flat_map_app, H, app_nil_r. }
  destruct (BuildPrompt env _ _ _ _) as [e|msgs]; [now apply K|].
  destruct (CreateChatCompletionStream env _ _) as [e|stream];
    unfold trace at 1; cbn [fst]; apply K; [reflexivity|].
  cbn [app rev_parse_calls flat_map].
  apply (after_open_no_rev_parse _ (receive_and_commit_events env opts stream)).
Qed.

(** X8.  For a commit (the last one under [--amend], a ref otherwise),
    [run] asks for the working directory, then resolves the revision with
    [git rev-parse], then calls [BuildPrompt] on that directory with the
    trimmed output of git as the hash, the amend flag and 128000. *)
Theorem run_describes_the_resolved_commit (env : Env) (opts : runOptions)
  (dir out : string) :
  os_Getwd env = inr dir ->
  (amend opts = true /\ ref opts = "") \/ (amend opts = false /\ ref opts <> "") ->
  cmd_Output env ["git"; "rev-parse"; revision opts] = inr out ->
  exists rest,
    trace (run env opts)
    = EvGetwd :: EvOutput ["git"; "rev-parse"; revision opts]
        :: EvBuildPrompt dir (strings.TrimSpace out) (amend opts) 128000 :: rest.
Proof.
  intros G F O.
  rewrite (run_past_checks env opts dir G)
    by (destruct F as [[_ F]|[F _]]; auto).
  rewrite commit_hash_Output by (destruct F as [[F _]|[_ F]]; auto).
  rewrite O. cbn zeta. cbn [fst snd].
  destruct (BuildPrompt env _ _ _ _) as [e|msgs]; [now eexists|].
  destruct (CreateChatCompletionStream env _ _) as [e|stream]; now eexists.
Qed.

(** X9.  With neither a ref nor [--amend], [run] calls no git command of
    its own: right after the working directory it calls [BuildPrompt] with
    an empty hash. *)
Theorem run_describes_the_staged_changes (env : Env) (opts : runOptions)
  (dir : string) :
  os_Getwd env = inr dir ->
  amend opts = false ->
  ref opts = "" ->
  exists rest,
    trace (run env opts) = EvGetwd :: EvBuildPrompt dir "" false 128000 :: rest.
Proof.
  intros G A R.
  rewrite (run_past_checks env opts dir G (or_introl A)).
  rewrite commit_hash_staged by assumption. rewrite A. cbn zeta. cbn [fst snd].
  destruct (BuildPrompt env _ _ _ _) as [e|msgs]; [now eexists|].
  destruct (CreateChatCompletionStream env _ _) as [e|stream]; now eexists.
Qed.

(** X10.  Under [--amend], when [git rev-parse HEAD] fails (a repository
    without commits), [run] stops there and returns git's error as it is,
    without the prefix it puts before the error of a ref. *)
Theorem amend_error_is_not_wrapped (env : Env) (opts : runOptions)
  (dir : string) (e : error) :
  os_Getwd env = inr dir ->
  amend opts = true ->
  ref opts = "" ->
  cmd_Output env ["git"; "rev-parse"; "HEAD"] = inl e ->
  run env opts = ([EvGetwd; EvOutput ["git"; "rev-parse"; "HEAD"]], inl e).
Proof.
  intros G A R O.
  rewrite (run_past_checks env opts dir G (or_intror R)).
  rewrite commit_hash_Output by auto. unfold revision. rewrite A, O.
  reflexivity.
Qed.

(** X7.  [run] asks git about at most one revision, and only once it
    knows the working directory: [HEAD] under [--amend], the ref when one
    is given, and nothing when there is neither or both. *)
Theorem run_asks_git_once (env : Env) (opts : runOptions) :
  rev_parse_calls (trace (run env opts))
  = match os_Getwd env with
    | inl _ => []
    | inr _ =>
        if amend opts
        then if ref opts =? "" then [["git"; "rev-parse"; "HEAD"]] else []
        else if ref opts =? "" then [] else [["git"; "rev-parse"; ref opts]]
    end.
Proof.
  destruct (os_Getwd env) as [e|dir] eqn:G.
  { unfold run, call. rewrite G. reflexivity. }
  destruct (amend opts) eqn:A, (ref opts =? "") eqn:R.
  - apply String.eqb_eq in R.
    rewrite (rev_parse_calls_past_checks env opts dir G (or_intror R)).
    rewrite commit_hash_Output by auto. unfold revision. now rewrite A.
  - apply String.eqb_neq in R.
    now rewrite (run_rejected env opts dir G A R).
  - apply String.eqb_eq in R.
    rewrite (rev_parse_calls_past_checks env opts dir G (or_introl A)).
    now rewrite commit_hash_staged.
  - apply String.eqb_neq in R.
    rewrite (rev_parse_calls_past_checks env opts dir G (or_introl A)).
    rewrite commit_hash_Output by auto. unfold revision. now rewrite A.
Qed.

Lemma in_run_shape (env : Env) (pre t : list Event) (a b ev : Event) :
  (forall ev, In ev pre -> failed_call env ev = None /\ is_rev_parse ev = true) ->
  (forall ev, In ev t -> after_open ev = true) ->
  In ev (EvGetwd :: pre ++ [a; b] ++ t) ->
  is_rev_parse ev = false -> after_open ev = false -> ev <> EvGetwd ->
  ev = a \/ ev = b.
Proof.
  intros Hpre Ht [H|H] R O G; [congruence|].
  apply in_app_iff in H as [H|[H|[H|H]]]; auto.
  - apply Hpre in H as [_ H]. congruence.
  - apply Ht in H. congruence.
Qed.

(** X11.  When [BuildPrompt] fails, [run] returns its error unchanged and
    that call is the last thing it did. *)
Theorem BuildPrompt_error_is_returned (env : Env) (opts : runOptions)
  (dir hash : string) (amend_ : bool) (maxTokens : Z) (e : error) :
  In (EvBuildPrompt dir hash amend_ maxTokens) (trace (run env opts)) ->
  BuildPrompt env dir hash amend_ maxTokens = inl e ->
  returned (run env opts) = Some e
  /\ exists before,
       trace (run env opts)
       = (before ++ [EvBuildPrompt dir hash amend_ maxTokens])%list.
Proof.
  intros Hin Hb.
  destruct (run_cases env opts)
    as [[e0 R]|[(args & e0 & e' & R & O & W)
       |(pre & d & h & Hpre & [(e0 & B & R)|(msgs & B & S)])]].
  - rewrite R in Hin. destruct Hin as [H|[]]. discriminate.
  - rewrite R in Hin. destruct Hin as [H|[H|[]]]; discriminate.
  - rewrite R in *. unfold trace, returned in *. cbn [fst snd] in *.
    destruct Hin as [H|H]; [discriminate|].
    apply in_app_iff in H as [H|[H|[]]].
    + apply Hpre in H as [_ H]. discriminate.
    + injection H as <- <- <- <-. rewrite B in Hb. injection Hb as <-.
      split; [reflexivity|]. now exists (EvGetwd :: pre).
  - exfalso. cbn zeta in S.
    assert (forall t, (forall ev, In ev t -> after_open ev = true) ->
              In (EvBuildPrompt dir hash amend_ maxTokens)
                 (EvGetwd :: pre
                    ++ [EvBuildPrompt d h (amend opts) 128000;
                        EvCreateChatCompletionStream (client opts)
                          (request opts (add_context msgs (context opts)))]
                    ++ t) -> False) as K.
    { intros t Ht H.
      apply (in_run_shape env pre t _ _ _ Hpre Ht) in H as [H|H];
        try reflexivity; try discriminate.
      injection H as -> -> -> ->. congruence. }
    destruct S as [(e0 & C & R)|(stream & C & R)]; rewrite R in Hin;
      unfold trace in Hin; cbn [fst] in Hin.
    + apply (K []); [intros ev []|]. exact Hin.
    + apply (K _ (receive_and_commit_events env opts stream)). exact Hin.
Qed.

Lemma closes_none (t : list Event) :
  (forall ev, In ev t -> is_close ev = false) -> closes t = 0.
Proof.
  intros H. unfold closes. induction t as [|ev t IH]; [reflexivity|].
  cbn [filter]. rewrite (H ev (or_introl eq_refl)). apply IH.
  intros ev' Hev. apply H. now right.
Qed.

Lemma before_open_quiet (env : Env) (pre : list Event) (a b : Event) :
  (forall ev, In ev pre -> failed_call env ev = None /\ is_rev_parse ev = true) ->
  is_BuildPrompt a = true ->
  is_network_call b = true -> is_close b = false ->
  printed (EvGetwd :: pre ++ [a; b]) = []
  /\ commands_run (EvGetwd :: pre ++ [a; b]) = []
  /\ closes (EvGetwd :: pre ++ [a; b]) = 0.
Proof.
  intros Hpre Ha Hb Hc.
  assert (forall ev, In ev (EvGetwd :: pre ++ [a; b]) ->
            match ev with
            | EvStdout _ | EvRun _ | EvStreamClose => False
            | _ => True
            end) as K.
  { intros ev [<-|H]; [exact I|].
    apply in_app_iff in H as [H|[<-|[<-|[]]]].
    - apply Hpre in H as [_ H]. destruct ev; try discriminate; exact I.
    - destruct a; try discriminate; exact I.
    - destruct b; try discriminate; exact I. }
  repeat split.
  - apply flat_map_nil. intros ev H. apply K in H. now destruct ev.
  - apply flat_map_nil. intros ev H. apply K in H. now destruct ev.
  - apply closes_none. intros ev H. apply K in H. now destruct ev.
Qed.

(** X12.  When the transport cannot open the stream, [run] returns its
    error unchanged: that call is the last, [run] itself printed nothing,
    no command was run and there is no stream to close. *)
Theorem stream_open_error_is_returned (env : Env) (opts : runOptions)
  (c : Client) (req : ChatCompletionRequest) (e : error) :
  In (EvCreateChatCompletionStream c req) (trace (run env opts)) ->
  CreateChatCompletionStream env c req = inl e ->
  returned (run env opts) = Some e
  /\ (exists before,
        trace (run env opts)
        = (before ++ [EvCreateChatCompletionStream c req])%list)
  /\ printed (trace (run env opts)) = []
  /\ commands_run (trace (run env opts)) = []
  /\ closes (trace (run env opts)) = 0.
Proof.
  intros Hin Hc.
  destruct (run_cases env opts)
    as [[e0 R]|[(args & e0 & e' & R & O & W)
       |(pre & d & h & Hpre & [(e0 & B & R)|(msgs & B & S)])]].
  - rewrite R in Hin. destruct Hin as [H|[]]. discriminate.
  - rewrite R in Hin. destruct Hin as [H|[H|[]]]; discriminate.
  - rewrite R in Hin. unfold trace in Hin. cbn [fst] in Hin.
    destruct Hin as [H|H]; [discriminate|].
    apply in_app_iff in H as [H|[H|[]]]; [|discriminate].
    apply Hpre in H as [_ H]. discriminate.
  - cbn zeta in S.
    assert (forall t, (forall ev, In ev t -> after_open ev = true) ->
              In (EvCreateChatCompletionStream c req)
                 (EvGetwd :: pre
                    ++ [EvBuildPrompt d h (amend opts) 128000;
                        EvCreateChatCompletionStream (client opts)
                          (request opts (add_context msgs (context opts)))]
                    ++ t) ->
              c = client opts
              /\ req = request opts (add_context msgs (context opts))) as K.
    { intros t Ht H.
      apply (in_run_shape env pre t _ _ _ Hpre Ht) in H as [H|H];
        try reflexivity; try discriminate.
      now injection H as -> ->. }
    destruct S as [(e0 & C & R)|(stream & C & R)]; rewrite R in *;
      unfold trace, returned in *; cbn [fst snd] in *.
    + destruct (K [] (fun ev (F : In ev []) => match F with end) Hin) as [-> ->].
      rewrite C in Hc. injection Hc as <-.
      split; [reflexivity|]. split.
      { exists (EvGetwd :: pre ++ [EvBuildPrompt d h (amend opts) 128000])%list.
        cbn [app]. f_equal. rewrite <- app_assoc. reflexivity. }
      now apply (before_open_quiet env pre).
    + destruct (K _ (receive_and_commit_events env opts stream) Hin) as [-> ->].
      congruence.
Qed.

Lemma commit_eq (env : Env) (opts : runOptions) (msg : string) :
  commit env opts msg
  = if dryRun opts
    then ([EvStdout (line "Run the following command to commit:");
           EvStdout (line (formatShellCommand env (commit_command env opts msg)))],
          inr tt)
    else ([EvRun (Args (commit_command env opts msg))],
          match cmd_Run env (Args (commit_command env opts msg)) with
          | Some e => inl e
          | None => inr tt
          end).
Proof. unfold commit, Run, call, emit, ret. now destruct (dryRun opts). Qed.

Lemma receive_and_commit_eq (env : Env) (opts : runOptions)
  (stream : list RecvResult) :
  receive_and_commit env opts stream
  = match snd (recvLoop stream "") with
    | inl e => ((trace (recvLoop stream "") ++ [EvStreamClose])%list, inl e)
    | inr msg =>
        ((trace (recvLoop stream "")
            ++ EvStdout (line "") :: trace (commit env opts msg)
            ++ [EvStreamClose])%list,
         snd (commit env opts msg))
    end.
Proof.
  unfold receive_and_commit, defer, trace, emit.
  destruct (recvLoop stream "") as [t [e|msg]]; [reflexivity|].
  rewrite !bind_inr. cbn [fst snd app]. rewrite <- app_assoc. reflexivity.
Qed.

(** X14.  The receive loop ends at the first error and at the first
    response without choices: whatever the stream holds after it is never
    read and changes nothing. *)
Theorem recvLoop_stops (before after : list RecvResult) (last : RecvResult) :
  stops last = true ->
  forall msg,
    recvLoop (before ++ last :: after) msg = recvLoop (before ++ [last]) msg.
Proof.
  intros Hs. induction before as [|r rest IH]; intros msg.
  - destruct last as [e|[|c cs]]; [reflexivity|reflexivity|discriminate].
  - cbn [app recvLoop]. destruct r as [err|[|c cs]]; try reflexivity.
    now rewrite IH.
Qed.

Lemma recvLoop_gathers (stream : list RecvResult) :
  forall init msg,
    snd (recvLoop stream init) = inr msg ->
    msg = init ++ String.concat "" (received stream).
Proof.
  induction stream as [|r rest IH]; intros init msg; cbn [recvLoop received].
  - cbn. intros [= <-]. now rewrite append_nil_r.
  - destruct r as [err|[|c cs]].
    + destruct (is_EOF err); cbn; [|discriminate].
      intros [= <-]. now rewrite append_nil_r.
    + cbn. intros [= <-]. now rewrite append_nil_r.
    + unfold emit. rewrite !bind_inr. cbn [fst snd].
      intros H. apply IH in H. rewrite H.
      rewrite concat_cons, append_assoc. reflexivity.
Qed.

(** X13.  The receive loop takes the content of the first choice of each
    response, up to the first error or response without choices: it calls
    [Recv] once more than it takes pieces, whether it ends well or not,
    and when it ends without an error the text it gathered is the text it
    started with followed by those pieces, in order and with nothing
    between them. *)
Theorem recvLoop_gathers_first_choices (stream : list RecvResult)
  (init : string) :
  recvs (trace (recvLoop stream init)) = S (List.length (received stream))
  /\ forall msg,
       snd (recvLoop stream init) = inr msg ->
       msg = init ++ String.concat "" (received stream).
Proof.
  split; [|apply recvLoop_gathers].
  revert init. induction stream as [|r rest IH]; intros init;
    cbn [recvLoop received].
  - reflexivity.
  - destruct r as [err|[|c cs]].
    + now destruct (is_EOF err).
    + reflexivity.
    + unfold emit, trace in *. rewrite !bind_inr.
      cbn [fst snd app recvs filter is_Recv List.length].
      fold (recvs (fst (recvLoop rest (init ++ c)))).
      now rewrite IH.
Qed.

Lemma printed_app (a b : list Event) :
  printed (a ++ b) = (printed a ++ printed b)%list.
Proof. apply flat_map_app. Qed.

Lemma commands_run_app (a b : list Event) :
  commands_run (a ++ b) = (commands_run a ++ commands_run b)%list.
Proof. apply flat_map_app. Qed.

Lemma opened_stream (env : Env) (opts : runOptions)
  (c : Client) (req : ChatCompletionRequest) (stream : list RecvResult) :
  In (EvCreateChatCompletionStream c req) (trace (run env opts)) ->
  CreateChatCompletionStream env c req = inr stream ->
  exists before,
    printed before = [] /\ commands_run before = [] /\ closes before = 0
    /\ run env opts
       = ((before ++ trace (receive_and_commit env opts stream))%list,
          snd (receive_and_commit env opts stream)).
Proof.
  intros Hin Hc.
  destruct (run_cases env opts)
    as [[e0 R]|[(args & e0 & e' & R & O & W)
       |(pre & d & h & Hpre & [(e0 & B & R)|(msgs & B & S)])]].
  - rewrite R in Hin. destruct Hin as [H|[]]. discriminate.
  - rewrite R in Hin. destruct Hin as [H|[H|[]]]; discriminate.
  - rewrite R in Hin. unfold trace in Hin. cbn [fst] in Hin.
    destruct Hin as [H|H]; [discriminate|].
    apply in_app_iff in H as [H|[H|[]]]; [|discriminate].
    apply Hpre in H as [_ H]. discriminate.
  - cbn zeta in S.
    assert (forall t, (forall ev, In ev t -> after_open ev = true) ->
              In (EvCreateChatCompletionStream c req)
                 (EvGetwd :: pre
                    ++ [EvBuildPrompt d h (amend opts) 128000;
                        EvCreateChatCompletionStream (client opts)
                          (request opts (add_context msgs (context opts)))]
                    ++ t) ->
              c = client opts
              /\ req = request opts (add_context msgs (context opts))) as K.
    { intros t Ht H.
      apply (in_run_shape env pre t _ _ _ Hpre Ht) in H as [H|H];
        try reflexivity; try discriminate.
      now injection H as -> ->. }
    destruct S as [(e0 & C & R)|(stream0 & C & R)]; rewrite R in *;
      unfold trace in Hin; cbn [fst] in Hin.
    + destruct (K [] (fun ev (F : In ev []) => match F with end) Hin) as [-> ->].
      congruence.
    + destruct (K _ (receive_and_commit_events env opts stream0) Hin) as [-> ->].
      rewrite C in Hc. injection Hc as <-.
      exists (EvGetwd :: pre
                ++ [EvBuildPrompt d h (amend opts) 128000;
                    EvCreateChatCompletionStream (client opts)
                      (request opts (add_context msgs (context opts)))])%list.
      destruct (before_open_quiet env pre
                  (EvBuildPrompt d h (amend opts) 128000)
                  (EvCreateChatCompletionStream (client opts)
                     (request opts (add_context msgs (context opts))))
                  Hpre eq_refl eq_refl eq_refl) as (P & Q & Z).
      repeat split; try assumption.
      cbn [app]. rewrite <- app_assoc. reflexivity.
Qed.

Lemma recvLoop_printed_only (stream : list RecvResult) (msg : string) :
  commands_run (trace (recvLoop stream msg)) = []
  /\ closes (trace (recvLoop stream msg)) = 0.
Proof.
  split; [apply recvLoop_runs_nothing|].
  apply closes_none. intros ev H. stream_event H; reflexivity.
Qed.

(** X15.  Without [--dry-run], once the stream is read to its end, the one
    command [run] runs is [git commit -m] on the pieces received, joined
    (with [--amend] when amending); what [run] returns is what that
    command returned, and the stream is closed after the command. *)
Theorem run_commits_the_gathered_text (env : Env) (opts : runOptions)
  (c : Client) (req : ChatCompletionRequest) (stream : list RecvResult)
  (msg : string) :
  dryRun opts = false ->
  In (EvCreateChatCompletionStream c req) (trace (run env opts)) ->
  CreateChatCompletionStream env c req = inr stream ->
  snd (recvLoop stream "") = inr msg ->
  let args := ("git" :: "commit" :: "-m" :: msg
                 :: (if amend opts then ["--amend"] else []))%list in
  msg = String.concat "" (received stream)
  /\ commands_run (trace (run env opts)) = [args]
  /\ returned (run env opts) = cmd_Run env args
  /\ exists before,
       trace (run env opts) = (before ++ [EvRun args; EvStreamClose])%list.
Proof.
  intros D Hin Hc Hm args.
  destruct (opened_stream env opts c req stream Hin Hc) as (pre & P & Q & Z & R).
  assert (Args (commit_command env opts msg) = args) as A.
  { unfold commit_command, exec_Command, args. now destruct (amend opts). }
  rewrite R, receive_and_commit_eq, Hm, commit_eq, D, A.
  unfold trace, returned. cbn [fst snd app].
  destruct (recvLoop_printed_only stream "") as [N _]. unfold trace in *.
  split; [|split; [|split]].
  - apply (recvLoop_gathers stream "" msg Hm).
  - rewrite !commands_run_app, Q, N. reflexivity.
  - now destruct (cmd_Run env args).
  - exists (pre ++ fst (recvLoop stream "") ++ [EvStdout (line "")])%list.
    rewrite <- !app_assoc. reflexivity.
Qed.

(** X16.  When reading the stream fails with an error other than
    [io.EOF], [run] returns that error: it runs no command, itself prints
    nothing beyond the pieces already echoed, and closes the stream
    last. *)
Theorem stream_read_error_is_returned (env : Env) (opts : runOptions)
  (c : Client) (req : ChatCompletionRequest) (stream : list RecvResult)
  (e : error) :
  In (EvCreateChatCompletionStream c req) (trace (run env opts)) ->
  CreateChatCompletionStream env c req = inr stream ->
  snd (recvLoop stream "") = inl e ->
  returned (run env opts) = Some e
  /\ commands_run (trace (run env opts)) = []
  /\ printed (trace (run env opts)) = printed (trace (recvLoop stream ""))
  /\ exists before, trace (run env opts) = (before ++ [EvStreamClose])%list.
Proof.
  intros Hin Hc Hm.
  destruct (opened_stream env opts c req stream Hin Hc) as (pre & P & Q & Z & R).
  rewrite R, receive_and_commit_eq, Hm.
  unfold trace, returned. cbn [fst snd].
  destruct (recvLoop_printed_only stream "") as [N _]. unfold trace in *.
  split; [reflexivity|]. split; [|split].
  - rewrite !commands_run_app, Q, N. reflexivity.
  - rewrite !printed_app, P. cbn. now rewrite app_nil_r.
  - exists (pre ++ fst (recvLoop stream ""))%list. now rewrite app_assoc.
Qed.

Lemma closes_app (a b : list Event) : closes (a ++ b) = closes a + closes b.
Proof. unfold closes. now rewrite filter_app, length_app. Qed.

Lemma opened_app (env : Env) (a b : list Event) :
  opened env (a ++ b) = (opened env a ++ opened env b)%list.
Proof. apply flat_map_app. Qed.

Lemma opened_none (env : Env) (t : list Event) :
  (forall ev, In ev t -> is_network_call ev = false \/ after_open ev = true) ->
  opened env t = [].
Proof.
  intros H. apply flat_map_nil. intros ev Hev.
  destruct (H ev Hev); destruct ev; try discriminate; reflexivity.
Qed.

Lemma receive_and_commit_closes (env : Env) (opts : runOptions)
  (stream : list RecvResult) :
  closes (trace (receive_and_commit env opts stream)) = 1
  /\ exists before,
       trace (receive_and_commit env opts stream)
       = (before ++ [EvStreamClose])%list.
Proof.
  rewrite receive_and_commit_eq.
  destruct (recvLoop_printed_only stream "") as [_ N].
  destruct (snd (recvLoop stream "")) as [e|msg]; unfold trace at 1 3;
    cbn [fst].
  - rewrite closes_app, N. split; [reflexivity|now eexists].
  - split.
    + rewrite closes_app, N, commit_eq.
      now destruct (dryRun opts).
    + exists (trace (recvLoop stream "")
                ++ EvStdout (line "") :: trace (commit env opts msg))%list.
      rewrite <- app_assoc. reflexivity.
Qed.

(** X17.  A run closes as many streams as it opened, none when the
    transport failed or was never reached; and when a stream was opened,
    closing it is the last thing the run does. *)
Theorem every_opened_stream_is_closed (env : Env) (opts : runOptions) :
  closes (trace (run env opts))
  = List.length (opened env (trace (run env opts)))
  /\ (opened env (trace (run env opts)) = []
      \/ exists before,
           trace (run env opts) = (before ++ [EvStreamClose])%list).
Proof.
  destruct (run_cases env opts)
    as [[e0 R]|[(args & e0 & e' & R & O & W)
       |(pre & d & h & Hpre & S)]].
  1,2: rewrite R; split; [reflexivity|now left].
  assert (opened env pre = [] /\ closes pre = 0) as [Op Cp].
  { split.
    - apply opened_none. intros ev H. left.
      now apply (rev_parse_only_requests env pre Hpre).
    - apply closes_none. intros ev H. apply Hpre in H as [_ H].
      destruct ev; try discriminate; reflexivity. }
  destruct S as [(e0 & B & R)|(msgs & B & [(e0 & C & R)|(stream & C & R)])];
    rewrite R; unfold trace; cbn [fst].
  - change (EvGetwd :: pre ++ ?x)%list with ([EvGetwd] ++ pre ++ x)%list.
    rewrite !closes_app, !opened_app, Op, Cp. split; [reflexivity|now left].
  - change (EvGetwd :: pre ++ ?x)%list with ([EvGetwd] ++ pre ++ x)%list.
    cbn zeta in C. rewrite !closes_app, !opened_app, Op, Cp.
    cbn [opened flat_map app]. rewrite C. split; [reflexivity|now left].
  - change (EvGetwd :: pre ++ [?a; ?b] ++ ?x)%list
      with ([EvGetwd] ++ pre ++ [a; b] ++ x)%list.
    cbn zeta in C. rewrite !closes_app, !opened_app, Op, Cp.
    destruct (receive_and_commit_closes env opts stream) as [N (t & E)].
    pose proof (opened_none env (trace (receive_and_commit env opts stream))
                  (fun ev H => or_intror
                     (receive_and_commit_events env opts stream ev H))) as Z.
    unfold trace in N, E, Z. rewrite N, Z. split.
    + cbn [opened flat_map app]. rewrite C. reflexivity.
    + right. rewrite E.
      exists ([EvGetwd] ++ pre ++ [EvBuildPrompt d h (amend opts) 128000;
                                    EvCreateChatCompletionStream (client opts)
                                      (request opts (add_context msgs (context opts)))]
                ++ t)%list.
      rewrite <- !app_assoc. reflexivity.
Qed.

Lemma network_calls_app (a b : list Event) :
  network_calls (a ++ b) = (network_calls a ++ network_calls b)%list.
Proof. apply filter_app. Qed.

Lemma network_calls_receive (env : Env) (opts : runOptions)
  (stream : list RecvResult) :
  network_calls (trace (receive_and_commit env opts stream))
  = network_calls (trace (recvLoop stream "")).
Proof.
  rewrite receive_and_commit_eq.
  destruct (snd (recvLoop stream "")) as [e|msg]; unfold trace at 1; cbn [fst];
    rewrite network_calls_app.
  - cbn. now rewrite app_nil_r.
  - rewrite commit_eq. destruct (dryRun opts); cbn; now rewrite app_nil_r.
Qed.

(** X18.  [--dry-run] changes nothing about the network: with the flag
    set or cleared, [run] opens the same stream with the same request and
    reads it as often. *)
Theorem dry_run_makes_the_same_network_calls (env : Env) (opts : runOptions)
  (b : bool) :
  network_calls (trace (run env (with_dryRun b opts)))
  = network_calls (trace (run env opts)).
Proof.
  destruct (os_Getwd env) as [e|dir] eqn:G.
  { unfold run, call. rewrite G. reflexivity. }
  destruct (amend opts) eqn:A.
  - destruct (ref opts =? "") eqn:R.
    2: { apply String.eqb_neq in R.
         rewrite (run_rejected env opts dir G A R).
         now rewrite (run_rejected env (with_dryRun b opts) dir G A R). }
    apply String.eqb_eq in R.
    rewrite (run_past_checks env opts dir G (or_intror R)).
    rewrite (run_past_checks env (with_dryRun b opts) dir G (or_intror R)).
    change (commit_hash env (with_dryRun b opts)) with (commit_hash env opts).
    cbn [with_dryRun amend context client]. cbn zeta.
    change (request (with_dryRun b opts)) with (request opts).
    destruct (snd (commit_hash env opts)) as [e|hash]; [reflexivity|].
    destruct (BuildPrompt env _ _ _ _) as [e|msgs]; [reflexivity|].
    destruct (CreateChatCompletionStream env _ _) as [e|stream];
      [reflexivity|].
    unfold trace at 1 3. cbn [fst].
    change (EvGetwd :: ?x ++ ?y ++ ?z)%list with ([EvGetwd] ++ x ++ y ++ z)%list.
    rewrite !network_calls_app, !network_calls_receive. reflexivity.
  - rewrite (run_past_checks env opts dir G (or_introl A)).
    rewrite (run_past_checks env (with_dryRun b opts) dir G (or_introl A)).
    change (commit_hash env (with_dryRun b opts)) with (commit_hash env opts).
    cbn [with_dryRun amend context client]. cbn zeta.
    change (request (with_dryRun b opts)) with (request opts).
    destruct (snd (commit_hash env opts)) as [e|hash]; [reflexivity|].
    destruct (BuildPrompt env _ _ _ _) as [e|msgs]; [reflexivity|].
    destruct (CreateChatCompletionStream env _ _) as [e|stream];
      [reflexivity|].
    unfold trace at 1 3. cbn [fst].
    change (EvGetwd :: ?x ++ ?y ++ ?z)%list with ([EvGetwd] ++ x ++ y ++ z)%list.
    rewrite !network_calls_app, !network_calls_receive. reflexivity.
Qed.

Lemma sent_request_is_the_request (env : Env) (opts : runOptions)
  (c : Client) (req : ChatCompletionRequest) :
  In (EvCreateChatCompletionStream c req) (trace (run env opts)) ->
  c = client opts
  /\ exists msgs, req = request opts (add_context msgs (context opts)).
Proof.
  intros Hin.
  destruct (run_cases env opts)
    as [[e0 R]|[(args & e0 & e' & R & O & W)
       |(pre & d & h & Hpre & [(e0 & B & R)|(msgs & B & S)])]].
  - rewrite R in Hin. destruct Hin as [H|[]]. discriminate.
  - rewrite R in Hin. destruct Hin as [H|[H|[]]]; discriminate.
  - rewrite R in Hin. unfold trace in Hin. cbn [fst] in Hin.
    destruct Hin as [H|H]; [discriminate|].
    apply in_app_iff in H as [H|[H|[]]]; [|discriminate].
    apply Hpre in H as [_ H]. discriminate.
  - cbn zeta in S.
    assert (exists t, (forall ev, In ev t -> after_open ev = true)
                      /\ trace (run env opts)
                         = (EvGetwd :: pre
                              ++ [EvBuildPrompt d h (amend opts) 128000;
                                  EvCreateChatCompletionStream (client opts)
                                    (request opts (add_context msgs (context opts)))]
                              ++ t)%list) as (t & Ht & R).
    { destruct S as [(e0 & C & R)|(stream & C & R)]; rewrite R.
      - exists []. split; [intros ev []|reflexivity].
      - exists (trace (receive_and_commit env opts stream)).
        split; [apply receive_and_commit_events|reflexivity]. }
    rewrite R in Hin.
    apply (in_run_shape env pre t _ _ _ Hpre Ht) in Hin as [H|H];
      try reflexivity; try discriminate.
    injection H as -> ->. split; [reflexivity|now exists msgs].
Qed.

(** X19.  A run sends at most one request, and every request it sends is
    made with the caller's client and model, asks for a stream with usage
    included, and has temperature 0. *)
Theorem run_sends_one_streaming_request (env : Env) (opts : runOptions) :
  List.length (sent_requests (trace (run env opts))) <= 1
  /\ forall c req,
       In (EvCreateChatCompletionStream c req) (trace (run env opts)) ->
       c = client opts
       /\ Model req = model opts
       /\ Stream req = true
       /\ Temperature req = 0%Z
       /\ IncludeUsage req = true.
Proof.
  split.
  - destruct (sent_requests (trace (run env opts))) as [|r [|r' rest]] eqn:E;
      [cbn; lia|cbn; lia|exfalso].
    destruct (run_cases env opts)
      as [[e0 R]|[(args & e0 & e' & R & O & W)
         |(pre & d & h & Hpre & S)]].
    1,2: rewrite R in E; discriminate.
    destruct (rev_parse_only_requests env pre Hpre) as [Q _].
    assert (forall a b tail,
              is_BuildPrompt a = true -> sent_requests tail = [] ->
              List.length (sent_requests (EvGetwd :: pre ++ a :: b :: tail)) <= 1)
      as K.
    { intros a b tail Ha Ht. unfold sent_requests in *. cbn [flat_map app].
      rewrite flat_map_app, Q. cbn [flat_map app]. rewrite Ht, app_nil_r.
      destruct a; try discriminate. destruct b; cbn; lia. }
    assert (List.length (sent_requests (trace (run env opts))) <= 1) as L.
    { destruct S as [(e0 & B & R)|(msgs & B & [(e0 & C & R)|(stream & C & R)])];
        rewrite R; unfold trace; cbn [fst].
      - unfold sent_requests. cbn [flat_map app]. rewrite flat_map_app.
        fold (sent_requests pre). rewrite Q. cbn. lia.
      - cbn zeta. apply (K _ _ []); reflexivity.
      - cbn zeta. apply K; [reflexivity|].
        apply (after_open_projections env _
                 (receive_and_commit_events env opts stream)). }
    rewrite E in L. cbn in L. lia.
  - intros c req H.
    apply sent_request_is_the_request in H as [-> [msgs ->]]. repeat split.
Qed.

(** X5.  What [cleanAIMessage] returns neither starts nor ends with a tab,
    a line feed, a vertical tab, a form feed, a carriage return or a
    space. *)
Theorem cleanAIMessage_no_blank_ends (msg : string) :
  is_blank (first_byte (cleanAIMessage msg)) = false
  /\ is_blank (last_byte (cleanAIMessage msg)) = false.
Proof. unfold cleanAIMessage. apply TrimSpace_no_blank_ends. Qed.

Lemma last_byte_append (a b : string) :
  b <> "" -> last_byte (a ++ b) = last_byte b.
Proof.
  intros H. unfold last_byte. rewrite reverse_append.
  apply first_byte_append. intros E. apply H.
  rewrite <- (reverse_involutive b), E. reflexivity.
Qed.

(** X4.  The fence is looked for before the white space is trimmed: a
    fenced message that starts with white space keeps both its fences, and
    only the white space before it is removed. *)
Theorem cleanAIMessage_keeps_fence_after_blank (blank body : string) :
  blank <> "" ->
  blanks blank = true ->
  cleanAIMessage (blank ++ "```" ++ body ++ "```") = "```" ++ body ++ "```".
Proof.
  intros Hne Hb. unfold cleanAIMessage.
  assert (strings.HasPrefix (blank ++ "```" ++ body ++ "```") "```" = false) as ->.
  { destruct blank as [|c ws]; [congruence|].
    unfold blanks in Hb. cbn [list_ascii_of_string forallb] in Hb.
    apply andb_true_iff in Hb as [Hc _].
    unfold strings.HasPrefix. cbn [append String.prefix].
    destruct (ascii_dec "`"%char c) as [<-|]; [discriminate|reflexivity]. }
  rewrite <- (append_nil_r ("```" ++ body ++ "```")) at 1.
  apply TrimSpace_around; [exact Hb|reflexivity|reflexivity|].
  rewrite <- append_assoc, last_byte_append by discriminate. reflexivity.
Qed.

(** X6.  When git prints a hash (a text whose first and last bytes are
    ASCII and not white space) followed by white space, such as the line
    feed it ends its output with, [resolveRef] returns the hash alone; and
    [getLastCommitHash] is [resolveRef] at [HEAD]. *)
Theorem rev_parse_reads_the_hash (env : Env) (ref hash blank : string) :
  is_plain (first_byte hash) = true ->
  is_plain (last_byte hash) = true ->
  blanks blank = true ->
  cmd_Output env ["git"; "rev-parse"; ref] = inr (hash ++ blank) ->
  resolveRef env ref = ([EvOutput ["git"; "rev-parse"; ref]], inr hash)
  /\ getLastCommitHash env = resolveRef env "HEAD".
Proof.
  intros Hf Hl Hb O.
  assert (strings.TrimSpace (hash ++ blank) = hash) as T
    by (apply (TrimSpace_around "" hash blank); auto).
  split; [|reflexivity].
  unfold resolveRef, Output, exec_Command, call. cbn [Args].
  rewrite O, bind_inr. cbn. now rewrite T.
Qed.

Lemma RunE_Return (env : Env) (os_Getenv : string -> string)
  (opts : runOptions) (openAIKey : string) (args : list string) :
  key_in_use os_Getenv openAIKey <> "" ->
  RunE env os_Getenv opts openAIKey args
  = Return (run env (with_client (NewClient (key_in_use os_Getenv openAIKey))
                       match args with
                       | arg :: _ => with_ref arg opts
                       | [] => opts
                       end)).
Proof.
  unfold RunE, key_in_use. intros H.
  destruct (openAIKey =? ""); [|reflexivity].
  apply String.eqb_neq in H. now rewrite H.
Qed.

(** X20.  The root command exits with status 1 and the line
    "OPENAI_API_KEY is not set" on standard error exactly when neither the
    [--openai-key] flag nor [OPENAI_API_KEY] gives a key; [run] is not
    reached then, whatever the options and arguments. *)
Theorem RunE_without_key_exits (env : Env) (os_Getenv : string -> string)
  (opts : runOptions) (openAIKey : string) (args : list string) :
  RunE env os_Getenv opts openAIKey args
  = Exit 1 (line "OPENAI_API_KEY is not set")
  <-> key_in_use os_Getenv openAIKey = "".
Proof.
  destruct (String.eqb_spec (key_in_use os_Getenv openAIKey) "") as [E|E].
  - split; [auto|intros _]. revert E. unfold RunE, key_in_use.
    destruct (openAIKey =? "") eqn:K.
    + intros ->. reflexivity.
    + apply String.eqb_neq in K. congruence.
  - rewrite (RunE_Return env os_Getenv opts openAIKey args E).
    split; [discriminate|congruence].
Qed.

(** X21.  Whenever the root command reaches [run], every request goes
    out with a client made from the key of the [--openai-key] flag, or
    from [OPENAI_API_KEY] when the flag is empty; that key is never
    empty. *)
Theorem RunE_sends_with_the_key_in_use (env : Env) (os_Getenv : string -> string)
  (opts : runOptions) (openAIKey : string) (args : list string) (r : M unit) :
  RunE env os_Getenv opts openAIKey args = Return r ->
  forall c req,
    In (EvCreateChatCompletionStream c req) (trace r) ->
    authToken c = key_in_use os_Getenv openAIKey
    /\ authToken c <> "".
Proof.
  intros H c req Hin.
  destruct (String.eqb_spec (key_in_use os_Getenv openAIKey) "") as [E|E].
  { exfalso. revert H. unfold RunE, key_in_use in *.
    destruct (openAIKey =? "") eqn:K.
    - rewrite E. cbn. discriminate.
    - apply String.eqb_neq in K. congruence. }
  rewrite (RunE_Return env os_Getenv opts openAIKey args E) in H.
  injection H as <-.
  apply sent_request_is_the_request in Hin as [-> _].
  split; [reflexivity|exact E].
Qed.

(** X22.  Whenever [RunE] is called with positional arguments and a key is
    at hand, the first argument overwrites the ref and the others are not
    looked at: the run that follows asks git exactly as [run] does for
    that ref, nothing when it is empty or comes with [--amend].  Which
    arguments of the command line reach [RunE] is for cobra to decide,
    and is not part of this. *)
Theorem RunE_takes_the_first_argument_as_ref (env : Env)
  (os_Getenv : string -> string) (opts : runOptions) (openAIKey : string)
  (arg : string) (more : list string) :
  key_in_use os_Getenv openAIKey <> "" ->
  exists r,
    RunE env os_Getenv opts openAIKey (arg :: more) = Return r
    /\ rev_parse_calls (trace r)
       = match os_Getwd env with
         | inl _ => []
         | inr _ =>
             if amend opts
             then if arg =? "" then [["git"; "rev-parse"; "HEAD"]] else []
             else if arg =? "" then [] else [["git"; "rev-parse"; arg]]
         end.
Proof.
  intros K. rewrite (RunE_Return _ _ _ _ _ K).
  eexists. split; [reflexivity|].
  set (o := with_client _ _).
  destruct (os_Getwd env) as [e|dir] eqn:G.
  { unfold run, call. rewrite G. reflexivity. }
  change (amend opts) with (amend o). change arg with (ref o) at 1 2 3.
  destruct (amend o) eqn:A, (ref o =? "") eqn:R.
  - apply String.eqb_eq in R.
    rewrite (rev_parse_calls_past_checks env o dir G (or_intror R)).
    rewrite commit_hash_Output by auto. unfold revision. now rewrite A.
  - apply String.eqb_neq in R.
    now rewrite (run_rejected env o dir G A R).
  - apply String.eqb_eq in R.
    rewrite (rev_parse_calls_past_checks env o dir G (or_introl A)).
    now rewrite commit_hash_staged.
  - apply String.eqb_neq in R.
    rewrite (rev_parse_calls_past_checks env o dir G (or_introl A)).
    rewrite commit_hash_Output by auto. unfold revision. now rewrite A.
Qed.

(** X23.  The value of [--openai-base-url] has no effect: whatever it is,
    the root command ends the same way, with the same calls and the same
    client. *)
Theorem RunE_ignores_the_base_URL (env : Env) (os_Getenv : string -> string)
  (opts : runOptions) (openAIKey url : string) (args : list string) :
  RunE env os_Getenv (with_openAIBaseURL url opts) openAIKey args
  = RunE env os_Getenv opts openAIKey args.
Proof. unfold RunE. destruct args; reflexivity. Qed.

(** ** The dry run, in full *)




(** ** The further properties at sample invocations *)


(** X3 at a reply whose fence is never closed. *)
Lemma cleanAIMessage_strips_open_fence_alone_witness :
  cleanAIMessage ("```" ++ line "fix: typo")
  = strings.TrimSpace (line "fix: typo").
Proof.
  apply (cleanAIMessage_strips_open_fence_alone (line "fix: typo")).
  reflexivity.
Defined.

(** X4 at a fenced reply after a line feed. *)
Lemma cleanAIMessage_keeps_fence_after_blank_witness :
  cleanAIMessage (LF ++ "```" ++ "fix: typo" ++ "```")
  = "```" ++ "fix: typo" ++ "```".
Proof.
  apply (cleanAIMessage_keeps_fence_after_blank LF "fix: typo");
    [discriminate|reflexivity].
Defined.

(** X6 at the output git gives for a tag. *)
Lemma rev_parse_reads_the_hash_witness :
  resolveRef good_env "v1.0"
  = ([EvOutput ["git"; "rev-parse"; "v1.0"]], inr "0a1b2c3")
  /\ getLastCommitHash good_env = resolveRef good_env "HEAD".
Proof.
  apply (rev_parse_reads_the_hash good_env "v1.0" "0a1b2c3" LF); reflexivity.
Defined.

(** X8 at an invocation that amends. *)
Lemma run_describes_the_resolved_commit_witness :
  exists rest,
    trace (run good_env (opts_with true true "" []))
    = EvGetwd :: EvOutput ["git"; "rev-parse"; "HEAD"]
        :: EvBuildPrompt "/repo" (strings.TrimSpace (line "0a1b2c3")) true 128000
        :: rest.
Proof.
  apply (run_describes_the_resolved_commit good_env
           (opts_with true true "" []) "/repo" (line "0a1b2c3"));
    [reflexivity|left; split; reflexivity|reflexivity].
Defined.

(** X9 at an invocation on the staged changes. *)
Lemma run_describes_the_staged_changes_witness :
  exists rest,
    trace (run good_env (opts_with true false "" []))
    = EvGetwd :: EvBuildPrompt "/repo" "" false 128000 :: rest.
Proof.
  apply (run_describes_the_staged_changes good_env
           (opts_with true false "" []) "/repo"); reflexivity.
Defined.

(** X10 where git knows no commit. *)
Lemma amend_error_is_not_wrapped_witness :
  run no_ref_env (opts_with false true "" [])
  = ([EvGetwd; EvOutput ["git"; "rev-parse"; "HEAD"]],
     inl (foreign "exit status 128")).
Proof.
  apply (amend_error_is_not_wrapped no_ref_env (opts_with false true "" [])
           "/repo" (foreign "exit status 128")); reflexivity.
Defined.

(** X11 with nothing staged. *)
Lemma BuildPrompt_error_is_returned_witness :
  returned (run no_changes_env (opts_with false false "" []))
  = Some (foreign "no changes detected")
  /\ exists before,
       trace (run no_changes_env (opts_with false false "" []))
       = (before ++ [EvBuildPrompt "/repo" "" false 128000])%list.
Proof.
  apply (BuildPrompt_error_is_returned no_changes_env
           (opts_with false false "" []) "/repo" "" false 128000
           (foreign "no changes detected"));
    [cbn; auto|reflexivity].
Defined.

(** X12 with a transport that refuses the connection. *)
Lemma stream_open_error_is_returned_witness :
  returned (run Cases.no_network_env (opts_with false false "" []))
  = Some (foreign "connection refused")
  /\ (exists before,
        trace (run Cases.no_network_env (opts_with false false "" []))
        = (before
             ++ [EvCreateChatCompletionStream a_client
                   (request (opts_with false false "" []) a_prompt)])%list)
  /\ printed (trace (run Cases.no_network_env (opts_with false false "" []))) = []
  /\ commands_run (trace (run Cases.no_network_env (opts_with false false "" [])))
     = []
  /\ closes (trace (run Cases.no_network_env (opts_with false false "" []))) = 0.
Proof.
  apply (stream_open_error_is_returned Cases.no_network_env
           (opts_with false false "" []) a_client
           (request (opts_with false false "" []) a_prompt)
           (foreign "connection refused"));
    [cbn; auto|reflexivity].
Defined.

(** X14 at a stream with a piece after the response that ends it. *)
Lemma recvLoop_stops_witness :
  recvLoop ([RecvResp ["fix: "]] ++ RecvResp [] :: [RecvResp ["typo"]]) ""
  = recvLoop ([RecvResp ["fix: "]] ++ [RecvResp []]) "".
Proof.
  apply (recvLoop_stops [RecvResp ["fix: "]] [RecvResp ["typo"]] (RecvResp [])).
  reflexivity.
Defined.

(** X15 at an invocation that amends. *)
Lemma run_commits_the_gathered_text_witness :
  "fix: typo" = String.concat "" (received reply)
  /\ commands_run (trace (run good_env (opts_with false true "" [])))
     = [["git"; "commit"; "-m"; "fix: typo"; "--amend"]]
  /\ returned (run good_env (opts_with false true "" []))
     = cmd_Run good_env ["git"; "commit"; "-m"; "fix: typo"; "--amend"]
  /\ exists before,
       trace (run good_env (opts_with false true "" []))
       = (before
            ++ [EvRun ["git"; "commit"; "-m"; "fix: typo"; "--amend"];
                EvStreamClose])%list.
Proof.
  apply (run_commits_the_gathered_text good_env (opts_with false true "" [])
           a_client (request (opts_with false true "" []) a_prompt)
           reply "fix: typo");
    [reflexivity|cbn; auto|reflexivity|reflexivity].
Defined.

(** X16 at a stream that breaks after its first piece. *)
Lemma stream_read_error_is_returned_witness :
  returned (run Cases.broken_env (opts_with false false "" []))
  = Some (foreign "unexpected EOF")
  /\ commands_run (trace (run Cases.broken_env (opts_with false false "" []))) = []
  /\ printed (trace (run Cases.broken_env (opts_with false false "" [])))
     = printed (trace (recvLoop Cases.broken_reply ""))
  /\ exists before,
       trace (run Cases.broken_env (opts_with false false "" []))
       = (before ++ [EvStreamClose])%list.
Proof.
  apply (stream_read_error_is_returned Cases.broken_env
           (opts_with false false "" []) a_client
           (request (opts_with false false "" []) a_prompt)
           Cases.broken_reply (foreign "unexpected EOF"));
    [cbn; auto|reflexivity|reflexivity].
Defined.

(** X21 with the key taken from the environment. *)
Lemma RunE_sends_with_the_key_in_use_witness :
  authToken (NewClient "sk-environment")
  = key_in_use Cases.key_in_environment ""
  /\ authToken (NewClient "sk-environment") <> "".
Proof.
  apply (RunE_sends_with_the_key_in_use good_env Cases.key_in_environment
           (opts_with true false "" []) "" []
           (run good_env
              (with_client (NewClient "sk-environment")
                 (opts_with true false "" [])))
           eq_refl
           (NewClient "sk-environment")
           (request (opts_with true false "" []) a_prompt)).
  cbn; auto.
Defined.

(** X22 with two positional arguments. *)
Lemma RunE_takes_the_first_argument_as_ref_witness :
  exists r,
    RunE good_env Cases.no_key (opts_with true false "" []) "sk-flag"
         ["HEAD~2"; "ignored"]
    = Return r
    /\ rev_parse_calls (trace r) = [["git"; "rev-parse"; "HEAD~2"]].
Proof.
  apply (RunE_takes_the_first_argument_as_ref good_env Cases.no_key
           (opts_with true false "" []) "sk-flag" "HEAD~2" ["ignored"]).
  discriminate.
Defined.
